(** * pkg/allocator: the distributed key -> ID allocator

    A shallow embedding of [pkg/allocator/allocator.go].  The allocator
    orchestrates three in-process structures (the ID pool, the table of
    locally used keys and the watch-fed cache) and one external
    collaborator, the [Backend].  The Go code is sequentialised: the two
    mutexes ([slaveKeysMutex], the cache lock) are no-ops in a
    single-threaded run, and everything the environment decides (backend
    replies, context cancellation, the runtime's pick between two ready
    [select] cases, the iteration order of a Go map) is read from an
    abstract world that every external call advances. *)

From Stdlib Require Import ZArith NArith Lia.
From stdpp Require Import base option gmap strings list fin_maps.

Set Default Proof Using "Type".

(** ** Identifiers, errors, channels *)

(** [idpool.ID] is a [uint64], embedded as [N]: the allocator only compares
    identifiers and ORs the prefix mask into them, so no arithmetic can wrap. *)
Definition NoID : N := 0%N.

(** A [kvstore.KVLocker] is an opaque handle. *)
Abbreviation KVLocker := nat.

(** A [context.Context]: the background context or a caller's context. *)
Inductive Context : Type :=
| Background
| Ctx (n : nat).

(** The error values built in [allocator.go], one constructor per message;
    [%w] wrapping keeps the cause. [External] stands for errors made outside
    this file (backend, kvstore, backoff); [ContextErr] is [ctx.Err()]. *)
Inductive error : Type :=
| External (msg : string)
| ContextErr
| ErrMinID
| ErrMaxID (max min : N)
| ErrAllocCancelledInitial (cause : error)
| ErrKeyAllocCancelled (cause : error)
| ErrRecreateMasterKey (key : string) (value : N) (cause : error)
| ErrReserveLocalKey (k : string) (cause : error)
| ErrCreateSecondaryKey (k : string) (cause : error)
| ErrNoMoreIDs
| ErrAnotherWriter (k : string)
| ErrFoundMasterKey (k : string)
| ErrAllocateID (id : N) (key : string) (cause : error)
| ErrSecondaryKeyCreation (k : string) (cause : error)
| ErrIdentityNotFound (key : string)
| ErrTimedOutWaiting (k : string) (cause : error)
| ErrReleaseCancelled (cause : error)
| ErrLocalKeyMismatch (val known : N)
| ErrLocalKeyNotFound (k : string).

(** A Go channel that is only ever closed, never sent on ([stopGC],
    [initialListDone]). *)
Inductive chan : Type :=
| ChanNil
| ChanOpen
| ChanClosed.

(** A receive on the channel is ready exactly when it is closed: a nil
    channel and an open, empty one block. *)
Definition chan_ready (c : chan) : bool :=
  match c with
  | ChanClosed => true
  | _ => false
  end.

(** What a call does: it returns, it stays suspended in its first
    [select], or it panics. *)
Inductive Outcome (A : Type) : Type :=
| Returns (a : A)
| Blocks
| Panics.

Arguments Returns {A} a.
Arguments Blocks {A}.
Arguments Panics {A}.

(** [close(c)]: closing a nil or an already closed channel panics. *)
Definition close_chan (c : chan) : Outcome chan :=
  match c with
  | ChanOpen => Returns ChanClosed
  | ChanNil | ChanClosed => Panics
  end.

(** A [select] over two receive cases. When both are ready the Go runtime
    picks one pseudo-randomly ([pick]); when neither is, the goroutine
    blocks. [Some true] is the first case. *)
Definition select2 (ready1 ready2 pick : bool) : option bool :=
  match ready1, ready2 with
  | true, true => Some pick
  | true, false => Some true
  | false, true => Some false
  | false, false => None
  end.

(** ** AllocatorKey *)

(** The interface [AllocatorKey]; only [GetKey] and [String] are used by
    the functions embedded here. *)
Class AllocatorKey (K : Type) := {
  GetKey : K → string;
  KeyString : K → string
}.

(** ** IDPool *)

(** Modelled from the spec: the two states in which the pool holds an ID. *)
Inductive idStatus : Type :=
| Available
| Leased.

#[global] Instance idStatus_eq_dec : EqDecision idStatus.
Proof. solve_decision. Defined.

(** Modelled from the spec: [pkg/idpool] is not part of the sources at hand.
    Section 4.1: the pool manages the closed range [min,max]; an ID is
    available, leased (reserved, not yet confirmed) or in use. The pool is
    a [gmap N idStatus]; an ID in use has no entry. [idRange] lists the
    closed range. *)
Definition idRange (min max : N) : list N :=
  (λ i, (min + N.of_nat i)%N) <$> seq 0 (N.to_nat (max - min + 1)).

(** Modelled from the spec: [idpool.NewIDPool(min, max)], every ID of
    [min,max] available. *)
Definition NewIDPool (min max : N) : gmap N idStatus :=
  list_to_map ((λ i, (i, Available)) <$> idRange min max).

(** Modelled from the spec: the IDs that [LeaseAvailableID] may hand out. *)
Definition availableIDs (p : gmap N idStatus) : list N :=
  (map_to_list (filter (λ kv, kv.2 = Available) p)).*1.

(** Modelled from the spec: [LeaseAvailableID() → ID|NoID], reserve an unused
    ID, marking it leased but not yet confirmed in use. Which unused ID is
    taken is not specified; [pick] chooses among the available ones. *)
Definition LeaseAvailableID (pick : nat) (p : gmap N idStatus) : N * gmap N idStatus :=
  match availableIDs p with
  | [] => (NoID, p)
  | c :: cs =>
      let id := nth (pick mod length (c :: cs)) (c :: cs) c in
      (id, <[id := Leased]> p)
  end.

(** Modelled from the spec: [Use(ID)], promote a leased ID to confirmed
    in use. *)
Definition idPool_Use (id : N) (p : gmap N idStatus) : gmap N idStatus :=
  delete id p.

(** Modelled from the spec: [Release(ID)], return an ID to the available
    pool; used both for normal release and to unwind a failed allocation
    attempt. *)
Definition idPool_Release (id : N) (p : gmap N idStatus) : gmap N idStatus :=
  <[id := Available]> p.

(** ** LocalKeys *)

(** Modelled from the spec: the LocalKeys entry of section 3,
    [{key, id, refcount, verified}]. *)
Record localKey (K : Type) : Type := mkLocalKey {
  lk_key : K;
  lk_val : N;
  lk_refcnt : nat;
  lk_verified : bool
}.

Arguments mkLocalKey {K} _ _ _ _.
Arguments lk_key {K} _.
Arguments lk_val {K} _.
Arguments lk_refcnt {K} _.
Arguments lk_verified {K} _.

Section LocalKeys.
Context {K : Type}.

(** Modelled from the spec: [newLocalKeys], the empty table. *)
Definition newLocalKeys : gmap string (localKey K) := ∅.

(** Modelled from the spec: [allocate(encodedKey, key, id)]: unknown key,
    create it with refcount 1 and [firstUse = true]; known with the same
    id, increment the refcount, [firstUse = false]; known with a different
    id, an error and no change. *)
Definition lk_allocate (ks : string) (key : K) (val : N) (lk : gmap string (localKey K))
  : (N * bool * option error) * gmap string (localKey K) :=
  match lk !! ks with
  | Some e =>
      if decide (val = lk_val e)
      then ((lk_val e, false, None),
            <[ks := mkLocalKey (lk_key e) (lk_val e) (S (lk_refcnt e)) (lk_verified e)]> lk)
      else ((NoID, false, Some (ErrLocalKeyMismatch val (lk_val e))), lk)
  | None => ((val, true, None), <[ks := mkLocalKey key val 1 false]> lk)
  end.

(** Modelled from the spec: [use(encodedKey) → ID|NoID]: increment the
    refcount if the entry exists and return its ID; else [NoID] with no
    side effect. *)
Definition lk_use (ks : string) (lk : gmap string (localKey K))
  : N * gmap string (localKey K) :=
  match lk !! ks with
  | Some e =>
      (lk_val e,
       <[ks := mkLocalKey (lk_key e) (lk_val e) (S (lk_refcnt e)) (lk_verified e)]> lk)
  | None => (NoID, lk)
  end.

(** Modelled from the spec: [release(encodedKey) → (lastUse, id, error)]:
    decrement the refcount; if it reaches zero, remove the entry and
    report [lastUse = true]. An unknown key is the error case. *)
Definition lk_release (ks : string) (lk : gmap string (localKey K))
  : (bool * N * option error) * gmap string (localKey K) :=
  match lk !! ks with
  | Some e =>
      match Nat.pred (lk_refcnt e) with
      | O => ((true, lk_val e, None), delete ks lk)
      | S n =>
          ((false, lk_val e, None),
           <[ks := mkLocalKey (lk_key e) (lk_val e) (S n) (lk_verified e)]> lk)
      end
  | None => ((false, NoID, Some (ErrLocalKeyNotFound ks)), lk)
  end.

(** Modelled from the spec: [lookupKey(encodedKey) → ID|NoID], read-only. *)
Definition lk_lookupKey (ks : string) (lk : gmap string (localKey K)) : N :=
  match lk !! ks with
  | Some e => lk_val e
  | None => NoID
  end.

(** Modelled from the spec: [verify(encodedKey) → error]: mark the entry
    verified; an error only if the entry vanished. *)
Definition lk_verify (ks : string) (lk : gmap string (localKey K))
  : option error * gmap string (localKey K) :=
  match lk !! ks with
  | Some e =>
      (None, <[ks := mkLocalKey (lk_key e) (lk_val e) (lk_refcnt e) true]> lk)
  | None => (Some (ErrLocalKeyNotFound ks), lk)
  end.

(** The local reference count of a key; zero when it has no entry. *)
Definition lk_refs (ks : string) (lk : gmap string (localKey K)) : nat :=
  match lk !! ks with
  | Some e => lk_refcnt e
  | None => 0
  end.
End LocalKeys.

(** ** Cache *)

(** Modelled from the spec: the Cache of section 4.3 with its two indexes
    [byKey] and [byID]; [stopped] records that its watch loop was stopped. *)
Record cache (K : Type) : Type := mkCache {
  byKey : gmap string N;
  byID : gmap N K;
  stopped : bool
}.

Arguments mkCache {K} _ _ _.
Arguments byKey {K} _.
Arguments byID {K} _.
Arguments stopped {K} _.

Section Cache.
Context {K : Type} `{AllocatorKey K}.

(** Modelled from the spec: [newCache], both indexes empty. *)
Definition newCache : cache K := mkCache ∅ ∅ false.

(** Modelled from the spec: [get(key) → ID|NoID]. *)
Definition cache_get (ks : string) (c : cache K) : N :=
  default NoID (byKey c !! ks).

(** Modelled from the spec: [insert(key, id)], make a just-allocated
    mapping immediately visible locally. *)
Definition cache_insert (key : K) (val : N) (c : cache K) : cache K :=
  mkCache (<[GetKey key := val]> (byKey c)) (<[val := key]> (byID c)) (stopped c).

(** Modelled from the spec: [stop], a stopped cache is terminal. *)
Definition cache_stop (c : cache K) : cache K :=
  mkCache (byKey c) (byID c) true.
End Cache.

(** ** The Allocator *)

(** The fields of [type Allocator struct] that the embedded functions read
    or write. The logger, the mutexes, the backoff template and the remote
    caches are left out; [events], [cacheValidators] and [backend] are kept
    as opaque handles so that every option has its field. *)
Record Allocator (K : Type) : Type := mkAllocator {
  events : option nat;
  min : N;
  max : N;
  prefixMask : N;
  localKeys : gmap string (localKey K);
  mainCache : cache K;
  stopGC : chan;
  initialListDone : chan;
  idPool : gmap N idStatus;
  enableMasterKeyProtection : bool;
  disableGC : bool;
  disableAutostart : bool;
  operatorIDManagement : bool;
  maxAllocAttempts : Z;
  syncInterval : Z;
  cacheValidators : list nat;
  backend : nat
}.

Arguments mkAllocator {K} _ _ _ _ _ _ _ _ _ _ _ _ _ _ _ _ _.
Arguments events {K} _.
Arguments min {K} _.
Arguments max {K} _.
Arguments prefixMask {K} _.
Arguments localKeys {K} _.
Arguments mainCache {K} _.
Arguments stopGC {K} _.
Arguments initialListDone {K} _.
Arguments idPool {K} _.
Arguments enableMasterKeyProtection {K} _.
Arguments disableGC {K} _.
Arguments disableAutostart {K} _.
Arguments operatorIDManagement {K} _.
Arguments maxAllocAttempts {K} _.
Arguments syncInterval {K} _.
Arguments cacheValidators {K} _.
Arguments backend {K} _.

(** [DefaultSyncInterval = 5 * time.Minute], in nanoseconds. *)
Definition DefaultSyncInterval : Z := 5 * 60 * 1000000000.

Definition defaultMaxAllocAttempts : Z := 16.

(** [^uint64(0)] *)
Definition maxUint64 : N := (2 ^ 64 - 1)%N.

Section Setters.
Context {K : Type}.

Definition set_localKeys (v : gmap string (localKey K)) (a : Allocator K) : Allocator K :=
  mkAllocator (events a) (min a) (max a) (prefixMask a) v (mainCache a) (stopGC a)
              (initialListDone a) (idPool a) (enableMasterKeyProtection a)
              (disableGC a) (disableAutostart a) (operatorIDManagement a)
              (maxAllocAttempts a) (syncInterval a) (cacheValidators a) (backend a).

Definition set_mainCache (v : cache K) (a : Allocator K) : Allocator K :=
  mkAllocator (events a) (min a) (max a) (prefixMask a) (localKeys a) v (stopGC a)
              (initialListDone a) (idPool a) (enableMasterKeyProtection a)
              (disableGC a) (disableAutostart a) (operatorIDManagement a)
              (maxAllocAttempts a) (syncInterval a) (cacheValidators a) (backend a).

Definition set_stopGC (v : chan) (a : Allocator K) : Allocator K :=
  mkAllocator (events a) (min a) (max a) (prefixMask a) (localKeys a) (mainCache a) v
              (initialListDone a) (idPool a) (enableMasterKeyProtection a)
              (disableGC a) (disableAutostart a) (operatorIDManagement a)
              (maxAllocAttempts a) (syncInterval a) (cacheValidators a) (backend a).

Definition set_initialListDone (v : chan) (a : Allocator K) : Allocator K :=
  mkAllocator (events a) (min a) (max a) (prefixMask a) (localKeys a) (mainCache a)
              (stopGC a) v (idPool a) (enableMasterKeyProtection a) (disableGC a)
              (disableAutostart a) (operatorIDManagement a) (maxAllocAttempts a)
              (syncInterval a) (cacheValidators a) (backend a).

Definition set_idPool (v : gmap N idStatus) (a : Allocator K) : Allocator K :=
  mkAllocator (events a) (min a) (max a) (prefixMask a) (localKeys a) (mainCache a)
              (stopGC a) (initialListDone a) v (enableMasterKeyProtection a)
              (disableGC a) (disableAutostart a) (operatorIDManagement a)
              (maxAllocAttempts a) (syncInterval a) (cacheValidators a) (backend a).
End Setters.

(** ** Construction *)

(** [AllocatorOption]: the option functions this package exports, each a
    closure that writes one field. *)
Inductive AllocatorOption : Type :=
| WithBackend (b : nat)
| WithEvents (ch : nat)
| WithMin (id : N)
| WithMax (id : N)
| WithPrefixMask (mask : N)
| WithMasterKeyProtection
| WithOperatorIDManagement
| WithMaxAllocAttempts (maxAttempts : Z)
| WithoutGC
| WithoutAutostart
| WithSyncInterval (interval : Z)
| WithCacheValidator (validator : nat).

Section Construction.
Context {K : Type} `{AllocatorKey K}.

(** [fn(a)] for an option [fn]. *)
Definition apply_option (fn : AllocatorOption) (a : Allocator K) : Allocator K :=
  let 'mkAllocator e mi ma pm lk mc sg il ip mk dg da om att si cv b := a in
  match fn with
  | WithBackend b' => mkAllocator e mi ma pm lk mc sg il ip mk dg da om att si cv b'
  | WithEvents ch => mkAllocator (Some ch) mi ma pm lk mc sg il ip mk dg da om att si cv b
  | WithMin id => mkAllocator e id ma pm lk mc sg il ip mk dg da om att si cv b
  | WithMax id => mkAllocator e mi id pm lk mc sg il ip mk dg da om att si cv b
  | WithPrefixMask mask => mkAllocator e mi ma mask lk mc sg il ip mk dg da om att si cv b
  | WithMasterKeyProtection => mkAllocator e mi ma pm lk mc sg il ip true dg da om att si cv b
  | WithOperatorIDManagement => mkAllocator e mi ma pm lk mc sg il ip mk dg da true att si cv b
  | WithMaxAllocAttempts n => mkAllocator e mi ma pm lk mc sg il ip mk dg da om n si cv b
  | WithoutGC => mkAllocator e mi ma pm lk mc sg il ip mk true da om att si cv b
  | WithoutAutostart => mkAllocator e mi ma pm lk mc sg il ip mk dg true om att si cv b
  | WithSyncInterval d => mkAllocator e mi ma pm lk mc sg il ip mk dg da om att d cv b
  | WithCacheValidator v => mkAllocator e mi ma pm lk mc sg il ip mk dg da om att si (cv ++ [v]) b
  end.

(** [for _, fn := range opts { fn(a) }] *)
Definition apply_options (opts : list AllocatorOption) (a : Allocator K) : Allocator K :=
  foldl (λ acc fn, apply_option fn acc) a opts.

(** The struct literal at the head of [NewAllocator]. *)
Definition initialAllocator (backend : nat) : Allocator K :=
  mkAllocator None 1%N maxUint64 0%N newLocalKeys newCache ChanOpen ChanNil ∅
              false false false false defaultMaxAllocAttempts DefaultSyncInterval [] backend.

(** [a.start()]: [initialListDone] becomes the channel returned by
    [mainCache.start()], which the watch loop closes after the first
    full list. The goroutine that waits for it is not part of a
    sequential run. *)
Definition start (a : Allocator K) : Allocator K :=
  set_initialListDone ChanOpen a.

(** [NewAllocator(rootLogger, typ, backend, opts...)] *)
Definition NewAllocator (backend : nat) (opts : list AllocatorOption)
  : option (Allocator K) * option error :=
  let a := apply_options opts (initialAllocator backend) in
  let a := set_mainCache newCache a in
  if decide (min a < 1)%N then (None, Some ErrMinID)
  else if decide (max a ≤ min a)%N then (None, Some (ErrMaxID (max a) (min a)))
  else
    let a := set_idPool (NewIDPool (min a) (max a)) a in
    let a := if disableAutostart a then a else start a in
    (Some a, None).

(** [func (a *Allocator) Delete()] *)
Definition Delete (a : Allocator K) : Outcome (Allocator K) :=
  match close_chan (stopGC a) with
  | Returns c => Returns (set_mainCache (cache_stop (mainCache a)) (set_stopGC c a))
  | Blocks => Blocks
  | Panics => Panics
  end.
End Construction.

(** ** The environment *)

(** The [Backend] interface (the methods [Allocate] and [Release] reach),
    the [KVLocker] it hands out, [backoff.Exponential.Wait], and what the Go
    runtime decides. Every call takes the world and returns the next one,
    so a backend may answer differently each time. Results keep Go's
    [(value, error)] shape; an error made out there is a message, which the
    allocator sees as [External]. *)
Class Environment (W K : Type) := {
  (** is [ctx.Done()] closed *)
  ctxDone : W → Context → bool;
  (** the runtime's pick when both cases of a [select] are ready;
      [true] is the first case *)
  selectPick : W → bool;
  (** where the iteration over the pool's available IDs starts *)
  leasePick : W → nat;
  (** [boff.Wait(ctx)] *)
  boffWait : W → Context → option string * W;
  bLock : W → Context → K → (KVLocker * option string) * W;
  lockerUnlock : W → KVLocker → Context → option string * W;
  bGetIfLocked : W → Context → K → KVLocker → (N * option string) * W;
  bGet : W → Context → K → (N * option string) * W;
  bUpdateKeyIfLocked : W → Context → N → K → bool → KVLocker → option string * W;
  bAllocateIDIfLocked : W → Context → N → K → KVLocker → (K * option string) * W;
  bAcquireReference : W → Context → N → K → KVLocker → option string * W;
  bRelease : W → Context → N → K → option string * W
}.

(** What left the process: one entry per backend call, locker call or
    backoff wait, most recent first. *)
Inductive Event : Type :=
| CallLock (k : string)
| CallUnlock (lock : KVLocker)
| CallGetIfLocked (k : string)
| CallGet (k : string)
| CallUpdateKeyIfLocked (id : N) (k : string) (reliablyMissing : bool)
| CallAllocateIDIfLocked (id : N) (k : string)
| CallAcquireReference (id : N) (k : string)
| CallRelease (id : N) (k : string)
| BackoffWait.

Definition isLock (e : Event) : bool :=
  match e with CallLock _ => true | _ => false end.

Definition isGet (e : Event) : bool :=
  match e with CallGet _ => true | _ => false end.

Definition isBackoffWait (e : Event) : bool :=
  match e with BackoffWait => true | _ => false end.

(** Number of entries of the trace accepted by [f]. *)
Definition count (f : Event → bool) (t : list Event) : nat :=
  length (List.filter f t).

(** The state a call runs in: the allocator, the world, the trace. *)
Record State (W K : Type) : Type := mkState {
  alloc : Allocator K;
  world : W;
  trace : list Event
}.

Arguments mkState {W K} _ _ _.
Arguments alloc {W K} _.
Arguments world {W K} _.
Arguments trace {W K} _.

(** The four results of [Allocate] and [lockedAllocate]:
    ID, isNew, firstUse, error. *)
Definition AllocResult : Type := N * bool * bool * option error.

Definition res_id (r : AllocResult) : N := r.1.1.1.
Definition res_isNew (r : AllocResult) : bool := r.1.1.2.
Definition res_firstUse (r : AllocResult) : bool := r.1.2.
Definition res_err (r : AllocResult) : option error := r.2.

(** [return 0, false, false, err] *)
Definition failed (e : error) : AllocResult := (0%N, false, false, Some e).

(** ** State passing *)

Definition M (W K A : Type) : Type := State W K → A * State W K.

Section Monad.
Context {W K : Type}.

Definition ret {A} (a : A) : M W K A := λ s, (a, s).

Definition bind {A B} (m : M W K A) (f : A → M W K B) : M W K B :=
  λ s, let '(a, s') := m s in f a s'.
End Monad.

Notation "'let*' x ':=' m 'in' k" := (bind m (λ x, k))
  (at level 10, x pattern, m at level 100, k at level 200).

Section Operations.
Context {W K : Type} `{AllocatorKey K} `{Environment W K}.

(** *** Calls that leave the process *)

Definition external {A} (ev : Event) (f : W → A * W) : M W K A :=
  λ s, let '(r, w) := f (world s) in (r, mkState (alloc s) w (ev :: trace s)).

(** An external call that returns only an error. *)
Definition external_err (ev : Event) (f : W → option string * W) : M W K (option error) :=
  let* e := external ev f in ret (External <$> e).

(** An external call that returns a value and an error. *)
Definition external_val {A} (ev : Event) (f : W → (A * option string) * W)
  : M W K (A * option error) :=
  let* r := external ev f in ret (r.1, External <$> r.2).

Definition backend_Lock (ctx : Context) (key : K) : M W K (KVLocker * option error) :=
  external_val (CallLock (GetKey key)) (λ w, bLock w ctx key).

Definition lock_Unlock (lock : KVLocker) (ctx : Context) : M W K (option error) :=
  external_err (CallUnlock lock) (λ w, lockerUnlock w lock ctx).

Definition backend_GetIfLocked (ctx : Context) (key : K) (lock : KVLocker)
  : M W K (N * option error) :=
  external_val (CallGetIfLocked (GetKey key)) (λ w, bGetIfLocked w ctx key lock).

Definition backend_Get (ctx : Context) (key : K) : M W K (N * option error) :=
  external_val (CallGet (GetKey key)) (λ w, bGet w ctx key).

Definition backend_UpdateKeyIfLocked (ctx : Context) (id : N) (key : K)
           (reliablyMissing : bool) (lock : KVLocker) : M W K (option error) :=
  external_err (CallUpdateKeyIfLocked id (GetKey key) reliablyMissing)
               (λ w, bUpdateKeyIfLocked w ctx id key reliablyMissing lock).

Definition backend_AllocateIDIfLocked (ctx : Context) (id : N) (key : K) (lock : KVLocker)
  : M W K (K * option error) :=
  external_val (CallAllocateIDIfLocked id (GetKey key))
               (λ w, bAllocateIDIfLocked w ctx id key lock).

Definition backend_AcquireReference (ctx : Context) (id : N) (key : K) (lock : KVLocker)
  : M W K (option error) :=
  external_err (CallAcquireReference id (GetKey key))
               (λ w, bAcquireReference w ctx id key lock).

Definition backend_Release (ctx : Context) (id : N) (key : K) : M W K (option error) :=
  external_err (CallRelease id (GetKey key)) (λ w, bRelease w ctx id key).

Definition boff_Wait (ctx : Context) : M W K (option error) :=
  external_err BackoffWait (λ w, boffWait w ctx).

(** *** Calls on the allocator's own structures *)

Definition on_localKeys {A}
           (f : gmap string (localKey K) → A * gmap string (localKey K)) : M W K A :=
  λ s, let '(r, lk) := f (localKeys (alloc s)) in
       (r, mkState (set_localKeys lk (alloc s)) (world s) (trace s)).

Definition on_idPool {A} (f : gmap N idStatus → A * gmap N idStatus) : M W K A :=
  λ s, let '(r, p) := f (idPool (alloc s)) in
       (r, mkState (set_idPool p (alloc s)) (world s) (trace s)).

(** [a.mainCache.insert(key, val)] *)
Definition mainCache_insert (key : K) (val : N) : M W K unit :=
  λ s, (tt, mkState (set_mainCache (cache_insert key val (mainCache (alloc s))) (alloc s))
                    (world s) (trace s)).

(** [a.mainCache.get(k)] *)
Definition mainCache_get (k : string) : M W K N :=
  λ s, (cache_get k (mainCache (alloc s)), s).

(** [select { case <-ctx.Done(): ...; default: ... }] *)
Definition ctx_cancelled (ctx : Context) : M W K bool :=
  λ s, (ctxDone (world s) ctx, s).

(** *** selectAvailableID *)

(** Returns the selected ID ORed with [prefixMask] and the originally
    selected ID (the ID string is the first component printed). *)
Definition selectAvailableID : M W K (N * N) :=
  λ s,
    let '(id, s1) := on_idPool (LeaseAvailableID (leasePick (world s))) s in
    if decide (id ≠ NoID)
    then ((N.lor id (prefixMask (alloc s)), id), s1)
    else ((0%N, 0%N), s1).

(** *** The lookups *)

(** [func (a *Allocator) GetIfLocked(ctx, key, lock)] *)
Definition GetIfLocked (ctx : Context) (key : K) (lock : KVLocker) : M W K (N * option error) :=
  let* id := mainCache_get (GetKey key) in
  if decide (id ≠ NoID) then ret (id, None)
  else backend_GetIfLocked ctx key lock.

(** [func (a *Allocator) GetNoCache(ctx, key)] *)
Definition GetNoCache (ctx : Context) (key : K) : M W K (N * option error) :=
  backend_Get ctx key.

(** [func (a *Allocator) Get(ctx, key)] *)
Definition Get (ctx : Context) (key : K) : M W K (N * option error) :=
  let* id := mainCache_get (GetKey key) in
  if decide (id ≠ NoID) then ret (id, None)
  else GetNoCache ctx key.

(** *** lockedAllocate *)

(** Lines 576-590: [if value != 0 { ... return value, false, firstUse, nil }]. *)
Definition reuseGlobalKey (ctx : Context) (key : K) (k : string) (lock : KVLocker)
           (value : N) (firstUse : bool) : M W K AllocResult :=
  let* err := backend_AcquireReference ctx value key lock in
  match err with
  | Some e =>
      let* _ := on_localKeys (lk_release k) in
      ret (failed (ErrCreateSecondaryKey k e))
  | None =>
      (* a failing verify is only logged *)
      let* _ := on_localKeys (lk_verify k) in
      ret (value, false, firstUse, None)
  end.

(** The closure [releaseKeyAndID] of [lockedAllocate]. *)
Definition releaseKeyAndID (k : string) (unmaskedID : N) : M W K unit :=
  let* _ := on_localKeys (lk_release k) in
  on_idPool (λ p, (tt, idPool_Release unmaskedID p)).

(** Lines 592-659: the allocation of a new master key. *)
Definition allocateNewID (ctx : Context) (key : K) (k : string) (lock : KVLocker)
  : M W K AllocResult :=
  let* (id, unmaskedID) := selectAvailableID in
  if decide (id = 0%N) then ret (failed ErrNoMoreIDs)
  else
    let* (oldID, firstUse, err) := on_localKeys (lk_allocate k key id) in
    match err with
    | Some e =>
        let* _ := on_idPool (λ p, (tt, idPool_Release unmaskedID p)) in
        ret (failed (ErrReserveLocalKey k e))
    | None =>
        if decide (id ≠ oldID)
        then
          let* _ := releaseKeyAndID k unmaskedID in
          ret (failed (ErrAnotherWriter k))
        else
          let* (value, err) := GetNoCache ctx key in
          match err with
          | Some e =>
              let* _ := releaseKeyAndID k unmaskedID in
              ret (failed e)
          | None =>
              if decide (value ≠ 0%N)
              then
                let* _ := releaseKeyAndID k unmaskedID in
                ret (failed (ErrFoundMasterKey k))
              else
                let key2 := key in
                let* (key', err) := backend_AllocateIDIfLocked ctx id key2 lock in
                match err with
                | Some e =>
                    let* _ := releaseKeyAndID k unmaskedID in
                    ret (failed (ErrAllocateID id (KeyString key2) e))
                | None =>
                    let* _ := on_idPool (λ p, (tt, idPool_Use unmaskedID p)) in
                    let* err := backend_AcquireReference ctx id key' lock in
                    match err with
                    | Some e =>
                        let* _ := releaseKeyAndID k unmaskedID in
                        ret (failed (ErrSecondaryKeyCreation k e))
                    | None =>
                        let* _ := on_localKeys (lk_verify k) in
                        ret (id, true, firstUse, None)
                    end
                end
          end
    end.

(** Lines 555-574: what is known of the key once the backend lookup
    returned [value]: the value to go on with, [firstUse], and the error of
    an early return. *)
Definition resolveKnownKey (ctx : Context) (key : K) (k : string) (lock : KVLocker)
           (value : N) : M W K (N * bool * option error) :=
  if decide (value = 0%N)
  then
    let* value := on_localKeys (λ lk, (lk_lookupKey k lk, lk)) in
    if decide (value ≠ 0%N)
    then
      let* err := backend_UpdateKeyIfLocked ctx value key true lock in
      match err with
      | Some e => ret (value, false, Some (ErrRecreateMasterKey (KeyString key) value e))
      | None => ret (value, false, None)
      end
    else ret (value, false, None)
  else
    let* (_, firstUse, err) := on_localKeys (lk_allocate k key value) in
    match err with
    | Some e => ret (value, firstUse, Some (ErrReserveLocalKey k e))
    | None => ret (value, firstUse, None)
    end.

(** The body of [lockedAllocate] between [Lock] and the deferred
    [Unlock]. *)
Definition lockedAllocate_locked (ctx : Context) (key : K) (k : string) (lock : KVLocker)
  : M W K AllocResult :=
  let* (value, err) := GetIfLocked ctx key lock in
  match err with
  | Some e => ret (failed e)
  | None =>
      let* (value, firstUse, err) := resolveKnownKey ctx key k lock value in
      match err with
      | Some e => ret (failed e)
      | None =>
          if decide (value ≠ 0%N)
          then reuseGlobalKey ctx key k lock value firstUse
          else allocateNewID ctx key k lock
      end
  end.

(** [func (a *Allocator) lockedAllocate(ctx, key)] *)
Definition lockedAllocate (ctx : Context) (key : K) : M W K AllocResult :=
  let k := GetKey key in
  let* (lock, err) := backend_Lock ctx key in
  match err with
  | Some e => ret (failed e)
  | None =>
      let* r := lockedAllocate_locked ctx key k lock in
      (* defer lock.Unlock(context.Background()) *)
      let* _ := lock_Unlock lock Background in
      ret r
  end.
End Operations.

Section Allocate.
Context {W K : Type} `{AllocatorKey K} `{Environment W K}.

(** *** Allocate *)

(** The body of [for attempt := range a.maxAllocAttempts] in [Allocate],
    with [n] iterations left; [err] is the variable [err] of [Allocate],
    returned when the loop runs out. *)
Fixpoint allocateAttempts (n : nat) (err : option error) (ctx : Context) (key : K)
  : M W K AllocResult :=
  match n with
  | O => ret (0%N, false, false, err)
  | S n' =>
      let* val := on_localKeys (lk_use (GetKey key)) in
      if decide (val ≠ NoID)
      then
        let* _ := mainCache_insert key val in
        ret (val, false, false, None)
      else
        let* r := lockedAllocate ctx key in
        match res_err r with
        | None =>
            let* _ := mainCache_insert key (res_id r) in
            ret (res_id r, res_isNew r, res_firstUse r, None)
        | Some e =>
            let* cancelled := ctx_cancelled ctx in
            if cancelled
            then ret (failed (ErrKeyAllocCancelled ContextErr))
            else
              let* waitErr := boff_Wait ctx in
              match waitErr with
              | Some we => ret (failed we)
              | None => allocateAttempts n' (Some e) ctx key
              end
        end
  end.

(** The closure [getID] of [GetWithRetry]. *)
Definition getID (ctx : Context) (key : K) : M W K (N * option error) :=
  let* (id, err) := Get ctx key in
  match err with
  | Some e => ret (NoID, Some e)
  | None =>
      if decide (id = NoID)
      then ret (NoID, Some (ErrIdentityNotFound (KeyString key)))
      else ret (id, None)
  end.

(** The body of [for attempt := range a.maxAllocAttempts] in
    [GetWithRetry], with [n] iterations left. *)
Fixpoint getAttempts (n : nat) (err : option error) (ctx : Context) (key : K)
  : M W K (N * option error) :=
  match n with
  | O => ret (NoID, err)
  | S n' =>
      let* (id, err') := getID ctx key in
      match err' with
      | None => ret (id, None)
      | Some e =>
          let* cancelled := ctx_cancelled ctx in
          if cancelled
          then ret (NoID, Some (ErrKeyAllocCancelled ContextErr))
          else
            let* waitErr := boff_Wait ctx in
            match waitErr with
            | Some we => ret (NoID, Some (ErrTimedOutWaiting (GetKey key) we))
            | None => getAttempts n' (Some e) ctx key
            end
      end
  end.

(** [range n] over an [int]: no iteration when [n <= 0]. *)
Definition range_int (n : Z) : nat := Z.to_nat n.

(** [func (a *Allocator) GetWithRetry(ctx, key)] *)
Definition GetWithRetry (ctx : Context) (key : K) : M W K (N * option error) :=
  λ s, getAttempts (range_int (maxAllocAttempts (alloc s))) None ctx key s.

(** The first statement of [Allocate] and of [Release]:
    [select { case <-a.initialListDone: case <-ctx.Done(): return ... }].
    [Some true]: the initial list is done; [Some false]: cancelled;
    [None]: neither yet. *)
Definition waitInitialList (ctx : Context) (s : State W K) : option bool :=
  select2 (chan_ready (initialListDone (alloc s)))
          (ctxDone (world s) ctx)
          (selectPick (world s)).

(** [func (a *Allocator) Allocate(ctx, key)] *)
Definition Allocate (ctx : Context) (key : K) (s : State W K)
  : Outcome (AllocResult * State W K) :=
  match waitInitialList ctx s with
  | None => Blocks
  | Some false => Returns (failed (ErrAllocCancelledInitial ContextErr), s)
  | Some true =>
      if operatorIDManagement (alloc s)
      then
        let '((id, err), s') := GetWithRetry ctx key s in
        Returns ((id, false, false, err), s')
      else
        Returns (allocateAttempts (range_int (maxAllocAttempts (alloc s))) None ctx key s)
  end.

(** *** Release *)

(** [func (a *Allocator) Release(ctx, key)]. The error of
    [a.backend.Release] is dropped by the source. *)
Definition Release (ctx : Context) (key : K) (s : State W K)
  : Outcome ((bool * option error) * State W K) :=
  if operatorIDManagement (alloc s)
  then Returns ((false, None), s)
  else
    match waitInitialList ctx s with
    | None => Blocks
    | Some false => Returns ((false, Some (ErrReleaseCancelled ContextErr)), s)
    | Some true =>
        let k := GetKey key in
        let '((lastUse, id, err), s1) := on_localKeys (lk_release k) s in
        match err with
        | Some e => Returns ((lastUse, Some e), s1)
        | None =>
            if lastUse
            then
              let '(_, s2) := backend_Release ctx id key s1 in
              Returns ((lastUse, None), s2)
            else Returns ((lastUse, None), s1)
        end
    end.
End Allocate.

(** ** Vocabulary of the statements *)

Section Vocabulary.
Context {W K : Type} `{AllocatorKey K} `{Environment W K}.

(** [wp m Φ s]: whatever [m] returns from [s], with whatever final state,
    satisfies [Φ]. The computations are total functions, so this is a
    statement about the one run from [s]. *)
Definition wp {A} (m : M W K A) (Φ : A → State W K → Prop) (s : State W K) : Prop :=
  ∀ r s', m s = (r, s') → Φ r s'.

(** No local key is bound to the sentinel. *)
Definition lk_ok (lk : gmap string (localKey K)) : Prop :=
  ∀ k e, lk !! k = Some e → lk_val e ≠ NoID.

(** The key has exactly [n] local references ([n = 0]: no entry), and
    its entry, if any, holds a real ID. *)
Definition refs_are (k : string) (n : nat) (lk : gmap string (localKey K)) : Prop :=
  match lk !! k with
  | None => n = 0
  | Some e => lk_refcnt e = n ∧ n ≠ 0 ∧ lk_val e ≠ NoID
  end.

(** Everything of an allocator but its three working structures: the
    fields that options set and the two channels. *)
Definition settings (a : Allocator K) : Allocator K :=
  set_localKeys ∅ (set_mainCache newCache (set_idPool ∅ a)).

(** What can happen to a live allocator: it is started, its initial list
    completes, the watch loop rewrites the cache and the pool (any
    rewrite is allowed here), or [Allocate] or [Release] returns, in any
    world and with any trace so far. *)
Inductive step : Allocator K → Allocator K → Prop :=
| step_start a :
    step a (start a)
| step_listDone a :
    initialListDone a = ChanOpen →
    step a (set_initialListDone ChanClosed a)
| step_watch a c p :
    step a (set_mainCache c (set_idPool p a))
| step_Allocate a (w : W) t ctx key r s' :
    Allocate ctx key (mkState a w t) = Returns (r, s') →
    step a (alloc s')
| step_Release a (w : W) t ctx key r s' :
    Release ctx key (mkState a w t) = Returns (r, s') →
    step a (alloc s').

(** The allocators that [NewAllocator] returned and that were used since,
    but not deleted. *)
Definition reachable (a : Allocator K) : Prop :=
  ∃ backend opts a0,
    NewAllocator backend opts = (Some a0, None) ∧ rtc step a0 a.

(** What holds of every live allocator. *)
Definition live_invariant (a : Allocator K) : Prop :=
  lk_ok (localKeys a) ∧
  (localKeys a ≠ ∅ → operatorIDManagement a = false ∧ (0 < maxAllocAttempts a)%Z) ∧
  stopGC a = ChanOpen ∧
  (1 ≤ min a)%N ∧ (min a < max a)%N.

(** [n] calls in a row, each from the state the previous one left. *)
Fixpoint repeatCall {A} (n : nat) (call : State W K → Outcome (A * State W K))
         (s : State W K) : Outcome (list A * State W K) :=
  match n with
  | O => Returns ([], s)
  | S n' =>
      match call s with
      | Returns (r, s1) =>
          match repeatCall n' call s1 with
          | Returns (rs, s2) => Returns (r :: rs, s2)
          | Blocks => Blocks
          | Panics => Panics
          end
      | Blocks => Blocks
      | Panics => Panics
      end
  end.

(** A successful allocation: a nil error and a real ID. *)
Definition allocated (r : AllocResult) : Prop :=
  res_err r = None ∧ res_id r ≠ NoID.

(** The events [GetWithRetry] may produce. *)
Definition pollEvent (key : K) (ev : Event) : Prop :=
  ev = CallGet (GetKey key) ∨ ev = BackoffWait.

(** The errors [GetWithRetry] builds itself or passes on. *)
Definition pollError (key : K) (e : error) : Prop :=
  e = ErrKeyAllocCancelled ContextErr ∨
  (∃ msg, e = ErrTimedOutWaiting (GetKey key) (External msg)) ∨
  e = ErrIdentityNotFound (KeyString key) ∨
  (∃ msg, e = External msg).

(** The errors that report a cancelled context. *)
Definition isCancellation (e : error) : bool :=
  match e with
  | ErrAllocCancelledInitial _ | ErrKeyAllocCancelled _ | ErrReleaseCancelled _ => true
  | _ => false
  end.

(** C4 as the specification states it: the call fails with the
    exhaustion error after a single attempt and without backing off. *)
Definition surfaces_at_once (s : State W K) (ctx : Context) (key : K) : Prop :=
  ∀ r s', Allocate ctx key s = Returns (r, s') →
          res_err r = Some ErrNoMoreIDs ∧
          count isLock (trace s') ≤ 1 + count isLock (trace s) ∧
          count isBackoffWait (trace s') = count isBackoffWait (trace s).

(** C5 as the specification states it: a cancellation error and no
    backend call. *)
Definition cancelled_without_io (s : State W K) (ctx : Context) (key : K) : Prop :=
  ∃ e s', Allocate ctx key s = Returns (failed e, s') ∧
          isCancellation e = true ∧ trace s' = trace s.

(** C6 as the specification states it: a failing call fails with the
    timeout or the not-found error naming the key (a cancellation apart). *)
Definition fails_naming_key (s : State W K) (ctx : Context) (key : K) : Prop :=
  ∀ r s' e, Allocate ctx key s = Returns (r, s') →
            res_err r = Some e →
            isCancellation e = true ∨
            (∃ cause, e = ErrTimedOutWaiting (GetKey key) cause) ∨
            e = ErrIdentityNotFound (KeyString key).
End Vocabulary.

Arguments step W {K _ _} _ _.
Arguments reachable W {K _ _} _.

(** ** A scripted environment *)

(** A concrete environment for running the model: string keys, and a world
    that answers the external calls from a script, one reply per call. *)
Module Script.
Local Open Scope string_scope.

#[global] Instance string_key : AllocatorKey string := {
  GetKey := λ k, k;
  KeyString := λ k, k
}.

(** One scripted reply: success carrying an ID (ignored by calls that
    return none), or a failure. *)
Inductive Reply : Type :=
| Ok (id : N)
| Fail (msg : string).

Record World : Type := mkWorld {
  cancelled : bool;
  pick : bool;
  lease : nat;
  replies : list Reply
}.

Definition next (w : World) : Reply * World :=
  match replies w with
  | [] => (Fail "script exhausted", w)
  | r :: rs => (r, mkWorld (cancelled w) (pick w) (lease w) rs)
  end.

Definition reply_err (w : World) : option string * World :=
  match next w with
  | (Ok _, w') => (None, w')
  | (Fail msg, w') => (Some msg, w')
  end.

Definition reply_id (w : World) : (N * option string) * World :=
  match next w with
  | (Ok id, w') => ((id, None), w')
  | (Fail msg, w') => ((0%N, Some msg), w')
  end.

#[global] Instance scripted : Environment World string := {
  ctxDone := λ w ctx, match ctx with Background => false | Ctx _ => cancelled w end;
  selectPick := pick;
  leasePick := lease;
  boffWait := λ w _, reply_err w;
  bLock := λ w _ _,
    match next w with
    | (Ok id, w') => ((N.to_nat id, None), w')
    | (Fail msg, w') => ((0, Some msg), w')
    end;
  lockerUnlock := λ w _ _, (None, w);
  bGetIfLocked := λ w _ _ _, reply_id w;
  bGet := λ w _ _, reply_id w;
  bUpdateKeyIfLocked := λ w _ _ _ _ _, reply_err w;
  bAllocateIDIfLocked := λ w _ _ key _,
    match next w with
    | (Ok _, w') => ((key, None), w')
    | (Fail msg, w') => ((key, Some msg), w')
    end;
  bAcquireReference := λ w _ _ _ _, reply_err w;
  bRelease := λ w _ _ _, reply_err w
}.

(** The allocator once its initial key list has been received. *)
Definition synced (a : Allocator string) : Allocator string :=
  set_initialListDone ChanClosed a.

Definition run (cancelled pick : bool) (lease : nat) (replies : list Reply)
           (a : Allocator string) : State World string :=
  mkState a (mkWorld cancelled pick lease replies) [].

(** *** Scenes *)

(** The state a call leaves, or the state it started in when it did not
    return. *)
Definition after {A} (o : Outcome (A * State World string)) (s : State World string)
  : State World string :=
  match o with
  | Returns (_, s') => s'
  | _ => s
  end.

(** The allocator [NewAllocator] builds from the options, or the bare
    struct literal if it refuses them. *)
Definition built (opts : list AllocatorOption) : Allocator string :=
  default (initialAllocator 0) (NewAllocator 0 opts).1.

(** IDs 1 to 3, initial list received. *)
Definition small : Allocator string := synced (built [WithMin 1; WithMax 3]).

(** A backend that locks, knows nothing of the key, and accepts the
    create and the reference. *)
Definition accepting : list Reply := [Ok 7; Ok 0; Ok 0; Ok 0; Ok 0].

(** [small] after one [Allocate] of "foo". *)
Definition fooOnce : State World string :=
  let s := run false true 0 accepting small in
  after (Allocate (Ctx 0) "foo" s) s.

(** A budget of two attempts, after the watch loop has seen every ID of
    the range in use elsewhere. *)
Definition twoAttempts : Allocator string :=
  set_idPool ∅ (synced (built [WithMin 1; WithMax 3; WithMaxAllocAttempts 2])).

(** "foo" allocated a second time. *)
Definition fooTwice : State World string :=
  after (Allocate (Ctx 0) "foo" fooOnce) fooOnce.

(** A budget of no attempt at all. *)
Definition zeroBudget : Allocator string :=
  synced (built [WithMin 1; WithMax 3; WithMaxAllocAttempts 0]).

Definition operatorMode (attempts : Z) : Allocator string :=
  synced (built [WithMin 1; WithMax 3; WithOperatorIDManagement;
                 WithMaxAllocAttempts attempts]).
End Script.

(** ** More of allocator.go *)

Definition isUnlock (e : Event) : bool :=
  match e with CallUnlock _ => true | _ => false end.

Definition isAllocateID (e : Event) : bool :=
  match e with CallAllocateIDIfLocked _ _ => true | _ => false end.

Definition isAcquireReference (e : Event) : bool :=
  match e with CallAcquireReference _ _ => true | _ => false end.

Definition isUpdateKey (e : Event) : bool :=
  match e with CallUpdateKeyIfLocked _ _ _ => true | _ => false end.

(** Held inside the critical section of [lockedAllocate]: neither a
    [Lock] nor an [Unlock]. *)
Definition underLock (e : Event) : Prop :=
  isLock e = false ∧ isUnlock e = false.

(** [extends_by P old new]: the trace [new] is [old] with more entries put
    in front, each of which satisfies [P]. *)
Inductive extends_by (P : Event → Prop) (old : list Event) : list Event → Prop :=
| extends_none : extends_by P old old
| extends_more ev t : P ev → extends_by P old t → extends_by P old (ev :: t).

(** The error [WaitForInitialSync] builds:
    "identity sync was cancelled: %w". *)
Inductive syncError : Type :=
| ErrSyncCancelled (cause : error).

Section More.
Context {W K : Type} `{AllocatorKey K} `{Environment W K}.

(** [NewAllocatorForGC(rootLogger, backend, opts...)]: the struct literal
    sets the logger, the backend and the range; every other field keeps
    its zero value (nil channels, no attempts; the nil [localKeys] and
    [idPool] are the empty tables here), and nothing is validated or
    started. *)
Definition NewAllocatorForGC (backend : nat) (opts : list AllocatorOption) : Allocator K :=
  apply_options opts
    (mkAllocator None 1%N maxUint64 0%N ∅ (mkCache ∅ ∅ false) ChanNil ChanNil ∅
                 false false false false 0 0 [] backend).

(** [func (a *Allocator) WaitForInitialSync(ctx)] *)
Definition WaitForInitialSync (ctx : Context) (s : State W K) : Outcome (option syncError) :=
  match waitInitialList ctx s with
  | None => Blocks
  | Some false => Returns (Some (ErrSyncCancelled ContextErr))
  | Some true => Returns None
  end.

(** The loop over [a.remoteCaches] in [GetIncludeRemoteCaches]; the list is
    the caches of the map in the order the runtime iterates over it. *)
Fixpoint firstCached (k : string) (remoteCaches : list (cache K)) : N :=
  match remoteCaches with
  | [] => NoID
  | rc :: rest =>
      if decide (cache_get k rc ≠ NoID) then cache_get k rc
      else firstCached k rest
  end.

(** [func (a *Allocator) GetIncludeRemoteCaches(ctx, key)]. The map
    [a.remoteCaches] is passed in: the [Allocator] record does not carry
    it. *)
Definition GetIncludeRemoteCaches (ctx : Context) (key : K) (remoteCaches : list (cache K))
  : M W K (N * option error) :=
  let* id := mainCache_get (GetKey key) in
  if decide (id ≠ NoID) then ret (id, None)
  else
    let id := firstCached (GetKey key) remoteCaches in
    if decide (id ≠ NoID) then ret (id, None)
    else
      let* (id, err) := backend_Get ctx key in
      if decide (id ≠ NoID ∨ is_Some err) then ret (id, err)
      else ret (NoID, None).
End More.

Section CallSteps.
Context {W K : Type} `{AllocatorKey K} `{Environment W K}.

(** One returned call of [Allocate] or [Release] on an allocator, in any
    world and with any trace so far. *)
Inductive called : Allocator K → Allocator K → Prop :=
| called_Allocate a (w : W) t ctx key r s' :
    Allocate ctx key (mkState a w t) = Returns (r, s') →
    called a (alloc s')
| called_Release a (w : W) t ctx key r s' :
    Release ctx key (mkState a w t) = Returns (r, s') →
    called a (alloc s').

(** What a call of the attempt loop does to the local keys. *)
Definition accounted (key : K) (s : State W K) (r : AllocResult) (s' : State W K) : Prop :=
  (allocated r →
     ∃ e, localKeys (alloc s') = <[GetKey key := e]> (localKeys (alloc s)) ∧
          lk_val e = res_id r ∧
          lk_refcnt e = S (lk_refs (GetKey key) (localKeys (alloc s))) ∧
          (∀ e0, localKeys (alloc s) !! GetKey key = Some e0 →
                 lk_key e = lk_key e0 ∧ lk_val e = lk_val e0 ∧
                 lk_verified e = lk_verified e0) ∧
          (res_firstUse r = true ↔ localKeys (alloc s) !! GetKey key = None)) ∧
  (¬ allocated r → localKeys (alloc s') = localKeys (alloc s)).
End CallSteps.

Arguments called W {K _ _} _ _.

(** ** Polling under operator-managed identities *)

Section Polling.
Context {W K : Type} `{AllocatorKey K} `{Environment W K}.

(** A [Get] that does not find the mapping; [e] is what [GetWithRetry]
    keeps of it: the error of [Get], or, when [Get] returns [NoID] and a
    nil error, the not-found error naming the key. *)
Definition missed (ctx : Context) (key : K) (s : State W K) (e : error) (s1 : State W K)
  : Prop :=
  ∃ id err,
    Get ctx key s = ((id, err), s1) ∧
    (err = Some e ∨ (err = None ∧ id = NoID ∧ e = ErrIdentityNotFound (KeyString key))).

(** [missedRounds ctx key j s last sj]: starting in [s], [j] rounds in a
    row went by without the mapping: in each, [Get] missed, the context
    was still live, and the backoff wait returned nil. [last] is what the
    last of these rounds kept of its [Get] ([None] if [j = 0]), and [sj]
    the state after the last wait. *)
Inductive missedRounds (ctx : Context) (key : K)
  : nat → State W K → option error → State W K → Prop :=
| missedRounds_O s :
    missedRounds ctx key 0 s None s
| missedRounds_S j s last s1 e s2 w :
    missedRounds ctx key j s last s1 →
    missed ctx key s1 e s2 →
    ctxDone (world s2) ctx = false →
    boffWait (world s2) ctx = (None, w) →
    missedRounds ctx key (S j) s (Some e)
                 (mkState (alloc s2) w (BackoffWait :: trace s2)).

(** What a poll with a budget of [n] rounds comes to, in the words of the
    amended claim: the budget is used up and the last round's error is
    returned; or, after fewer than [n] missed rounds, the next [Get] finds
    the mapping and its ID is returned; or that [Get] misses and the
    context is found cancelled; or it misses and the backoff wait fails. *)
Inductive polled (ctx : Context) (key : K) (n : nat) (s : State W K)
  : N * option error → State W K → Prop :=
| polled_out last s' :
    missedRounds ctx key n s last s' →
    polled ctx key n s (NoID, last) s'
| polled_found j last sj id s' :
    j < n →
    missedRounds ctx key j s last sj →
    Get ctx key sj = ((id, None), s') →
    id ≠ NoID →
    polled ctx key n s (id, None) s'
| polled_cancelled j last sj e s' :
    j < n →
    missedRounds ctx key j s last sj →
    missed ctx key sj e s' →
    ctxDone (world s') ctx = true →
    polled ctx key n s (NoID, Some (ErrKeyAllocCancelled ContextErr)) s'
| polled_timeout j last sj e s1 msg w :
    j < n →
    missedRounds ctx key j s last sj →
    missed ctx key sj e s1 →
    ctxDone (world s1) ctx = false →
    boffWait (world s1) ctx = (Some msg, w) →
    polled ctx key n s
           (NoID, Some (ErrTimedOutWaiting (GetKey key) (External msg)))
           (mkState (alloc s1) w (BackoffWait :: trace s1)).
End Polling.

(** ** More scenes *)

Module Scenes.
Import Script.
Local Open Scope string_scope.

(** [small] before its first call, with the accepting backend. *)
Definition fresh : State World string := run false true 0 accepting small.

(** The allocator holds "foo" locally, but neither its cache nor the
    backend know the key any more; the backend accepts what it is asked. *)
Definition lostMasterKey : State World string :=
  mkState (set_mainCache newCache (alloc fooOnce))
          (mkWorld false true 0 [Ok 7; Ok 0; Ok 0; Ok 0]) [].

(** The backend refuses the conditional create, and the backoff wait that
    follows fails. *)
Definition refusing : State World string :=
  run false true 0 [Ok 7; Ok 0; Ok 0; Fail "conflict"] small.


(** Two remote caches; only the second knows "foo". *)
Definition remotes : list (cache string) :=
  [mkCache ∅ ∅ false; mkCache {["foo" := 9%N]} {[9%N := "foo"]} false].
End Scenes.

(** * Proofs *)

(** ** Symbolic execution *)

Section WP.
Context {W K : Type} `{AllocatorKey K} `{Environment W K}.

Lemma wp_elim {A} (m : M W K A) Φ (s : State W K) r s' :
  wp m Φ s → m s = (r, s') → Φ r s'.
Proof. intros Hwp Hrun. exact (Hwp r s' Hrun). Qed.

Lemma wp_ret {A} (a : A) Φ (s : State W K) : Φ a s → wp (ret a) Φ s.
Proof. intros HΦ r s' [= <- <-]. done. Qed.

Lemma wp_bind {A B} (m : M W K A) (f : A → M W K B) Φ (s : State W K) :
  wp m (λ a s1, wp (f a) Φ s1) s → wp (bind m f) Φ s.
Proof.
  intros Hm r s' Hrun. unfold bind in Hrun.
  destruct (m s) as [a s1] eqn:E. exact (Hm a s1 E r s' Hrun).
Qed.

Lemma wp_mono {A} (m : M W K A) (Φ Ψ : A → State W K → Prop) (s : State W K) :
  wp m Φ s → (∀ r s', Φ r s' → Ψ r s') → wp m Ψ s.
Proof. intros Hm HΦΨ r s' Hrun. eauto. Qed.

Lemma wp_external {A} ev (f : W → A * W) Φ (s : State W K) :
  (∀ r w, f (world s) = (r, w) → Φ r (mkState (alloc s) w (ev :: trace s))) →
  wp (external ev f) Φ s.
Proof.
  intros HΦ r s' Hrun. unfold external in Hrun.
  destruct (f (world s)) as [r0 w] eqn:E. simplify_eq. eauto.
Qed.

Lemma wp_external_err ev f Φ (s : State W K) :
  (∀ e w, f (world s) = (e, w) →
          Φ (External <$> e) (mkState (alloc s) w (ev :: trace s))) →
  wp (external_err ev f) Φ s.
Proof.
  intros HΦ. unfold external_err. apply wp_bind, wp_external.
  intros e w E. apply wp_ret. eauto.
Qed.

Lemma wp_external_val {A} ev (f : W → (A * option string) * W) Φ (s : State W K) :
  (∀ a e w, f (world s) = ((a, e), w) →
            Φ (a, External <$> e) (mkState (alloc s) w (ev :: trace s))) →
  wp (external_val ev f) Φ s.
Proof.
  intros HΦ. unfold external_val. apply wp_bind, wp_external.
  intros [a e] w E. apply wp_ret. eauto.
Qed.

Lemma wp_on_localKeys {A}
      (f : gmap string (localKey K) → A * gmap string (localKey K)) Φ (s : State W K) :
  (∀ r lk, f (localKeys (alloc s)) = (r, lk) →
           Φ r (mkState (set_localKeys lk (alloc s)) (world s) (trace s))) →
  wp (on_localKeys f) Φ s.
Proof.
  intros HΦ r s' Hrun. unfold on_localKeys in Hrun.
  destruct (f (localKeys (alloc s))) as [r0 lk] eqn:E. simplify_eq. eauto.
Qed.

Lemma wp_on_idPool {A} (f : gmap N idStatus → A * gmap N idStatus) Φ (s : State W K) :
  (∀ r p, f (idPool (alloc s)) = (r, p) →
          Φ r (mkState (set_idPool p (alloc s)) (world s) (trace s))) →
  wp (on_idPool f) Φ s.
Proof.
  intros HΦ r s' Hrun. unfold on_idPool in Hrun.
  destruct (f (idPool (alloc s))) as [r0 p] eqn:E. simplify_eq. eauto.
Qed.

Lemma wp_mainCache_get k Φ (s : State W K) :
  Φ (cache_get k (mainCache (alloc s))) s → wp (mainCache_get k) Φ s.
Proof. intros HΦ r s' [= <- <-]. done. Qed.

Lemma wp_mainCache_insert key val Φ (s : State W K) :
  Φ tt (mkState (set_mainCache (cache_insert key val (mainCache (alloc s))) (alloc s))
                (world s) (trace s)) →
  wp (mainCache_insert key val) Φ s.
Proof. intros HΦ r s' [= <- <-]. done. Qed.

Lemma wp_ctx_cancelled ctx Φ (s : State W K) :
  Φ (ctxDone (world s) ctx) s → wp (ctx_cancelled ctx) Φ s.
Proof. intros HΦ r s' [= <- <-]. done. Qed.

Lemma wp_selectAvailableID Φ (s : State W K) :
  (∀ id p, LeaseAvailableID (leasePick (world s)) (idPool (alloc s)) = (id, p) →
     Φ (if decide (id ≠ NoID) then (N.lor id (prefixMask (alloc s)), id) else (0%N, 0%N))
       (mkState (set_idPool p (alloc s)) (world s) (trace s))) →
  wp selectAvailableID Φ s.
Proof.
  intros HΦ r s' Hrun. unfold selectAvailableID, on_idPool in Hrun.
  destruct (LeaseAvailableID _ _) as [id p] eqn:E.
  specialize (HΦ id p eq_refl). destruct (decide (id ≠ NoID)); simplify_eq; done.
Qed.
End WP.

(** One step of symbolic execution: the rule of the head construct. *)
Ltac wp_step :=
  lazymatch goal with
  | |- wp (bind _ _) _ _ => apply wp_bind
  | |- wp (ret _) _ _ => apply wp_ret
  | |- wp (external_err _ _) _ _ => apply wp_external_err; intros ? ? ?
  | |- wp (external_val _ _) _ _ => apply wp_external_val; intros ? ? ? ?
  | |- wp (on_localKeys _) _ _ => apply wp_on_localKeys; intros ? ? ?
  | |- wp (on_idPool _) _ _ => apply wp_on_idPool; intros ? ? ?
  | |- wp (mainCache_get _) _ _ => apply wp_mainCache_get
  | |- wp (mainCache_insert _ _) _ _ => apply wp_mainCache_insert
  | |- wp (ctx_cancelled _) _ _ => apply wp_ctx_cancelled
  | |- wp selectAvailableID _ _ => apply wp_selectAvailableID; intros ? ? ?
  | |- wp (match ?x with _ => _ end) _ _ => destruct x eqn:?
  | |- wp ((λ _, _) _) _ _ => cbv beta
  end.

Ltac wp_unfold :=
  unfold getID, lockedAllocate, lockedAllocate_locked, resolveKnownKey, reuseGlobalKey,
    allocateNewID, releaseKeyAndID, GetIfLocked, Get, GetNoCache,
    backend_Lock, lock_Unlock, backend_GetIfLocked, backend_Get, backend_UpdateKeyIfLocked,
    backend_AllocateIDIfLocked, backend_AcquireReference, backend_Release, boff_Wait.

Ltac wp_cbn :=
  cbn [fst snd alloc world trace localKeys idPool mainCache
       set_localKeys set_idPool set_mainCache] in *.

(** Run to the leaves, or to the first call that has no rule. *)
Ltac wp_go := repeat (wp_step; wp_cbn).

(** Run with every operation of [lockedAllocate] unfolded. *)
Ltac wp_run := wp_unfold; wp_go.

(** Use a proved specification of a callee instead of unfolding it. *)
Tactic Notation "wp_call" constr(lem) "as" simple_intropattern(pat) :=
  first [ eapply wp_mono; [apply lem | intros ? ? pat; wp_cbn]
        | apply wp_bind; eapply wp_mono; [apply lem | intros ? ? pat; wp_cbn] ].

(** ** The ID pool and the local keys *)

Section PoolFacts.
Implicit Types p : gmap N idStatus.

Lemma availableIDs_spec p id : id ∈ availableIDs p ↔ p !! id = Some Available.
Proof.
  unfold availableIDs. rewrite list_elem_of_fmap. split.
  - intros [[i st] [-> Hin]]. apply elem_of_map_to_list in Hin.
    apply map_lookup_filter_Some in Hin as [Hin Hst]. simpl in *. by subst.
  - intros Hin. exists (id, Available). split; [done|].
    apply elem_of_map_to_list, map_lookup_filter_Some. done.
Qed.

Lemma LeaseAvailableID_spec pick p id p' :
  LeaseAvailableID pick p = (id, p') →
  (availableIDs p = [] ∧ id = NoID ∧ p' = p) ∨
  (p !! id = Some Available ∧ p' = <[id := Leased]> p).
Proof.
  unfold LeaseAvailableID. destruct (availableIDs p) as [|c cs] eqn:E.
  - intros [= <- <-]. by left.
  - assert (pick mod length (c :: cs) < length (c :: cs)) as Hi
      by (apply Nat.mod_upper_bound; done).
    intros [= <- <-]. right. split; [|done].
    apply availableIDs_spec. rewrite E. apply list_elem_of_In.
    exact (nth_In (c :: cs) c Hi).
Qed.

Lemma release_after_lease p id :
  p !! id = Some Available → idPool_Release id (<[id := Leased]> p) = p.
Proof.
  intros Hp. unfold idPool_Release. rewrite insert_insert_eq. by apply insert_id.
Qed.

Lemma release_after_use p id :
  p !! id = Some Available →
  idPool_Release id (idPool_Use id (<[id := Leased]> p)) = p.
Proof.
  intros Hp. unfold idPool_Release, idPool_Use.
  rewrite insert_delete_eq, insert_insert_eq. by apply insert_id.
Qed.
End PoolFacts.

Section LocalKeysFacts.
Context {K : Type}.
Implicit Types lk : gmap string (localKey K).

Lemma lk_ok_empty : lk_ok (∅ : gmap string (localKey K)).
Proof. intros k e. by rewrite lookup_empty. Qed.

Lemma lk_ok_insert ks e lk :
  lk_val e ≠ NoID → lk_ok lk → lk_ok (<[ks := e]> lk).
Proof.
  intros He Hok k e' Hk. rewrite lookup_insert in Hk.
  case_decide; simplify_eq; [done|by eapply Hok].
Qed.

Lemma lk_ok_delete ks lk : lk_ok lk → lk_ok (delete ks lk).
Proof.
  intros Hok k e Hk. apply lookup_delete_Some in Hk as [_ Hk]. by eapply Hok.
Qed.

Lemma lk_allocate_ok ks key val lk r lk' :
  lk_allocate ks key val lk = (r, lk') → val ≠ NoID → lk_ok lk → lk_ok lk'.
Proof.
  unfold lk_allocate. intros Hrun Hval Hok.
  destruct (lk !! ks) as [e0|] eqn:E.
  - destruct (decide (val = lk_val e0)); simplify_eq; [|done].
    apply lk_ok_insert; [simpl; by eapply Hok|done].
  - simplify_eq. by apply lk_ok_insert.
Qed.

Lemma lk_use_ok ks lk r lk' :
  lk_use ks lk = (r, lk') → lk_ok lk → lk_ok lk'.
Proof.
  unfold lk_use. intros Hrun Hok.
  destruct (lk !! ks) as [e0|] eqn:E; simplify_eq; [|done].
  apply lk_ok_insert; [simpl; by eapply Hok|done].
Qed.

Lemma lk_release_ok ks lk r lk' :
  lk_release ks lk = (r, lk') → lk_ok lk → lk_ok lk'.
Proof.
  unfold lk_release. intros Hrun Hok.
  destruct (lk !! ks) as [e0|] eqn:E; simplify_eq; [|done].
  destruct (Nat.pred (lk_refcnt e0)); simplify_eq.
  - by apply lk_ok_delete.
  - apply lk_ok_insert; [simpl; by eapply Hok|done].
Qed.

Lemma lk_verify_ok ks lk r lk' :
  lk_verify ks lk = (r, lk') → lk_ok lk → lk_ok lk'.
Proof.
  unfold lk_verify. intros Hrun Hok.
  destruct (lk !! ks) as [e0|] eqn:E; simplify_eq; [|done].
  apply lk_ok_insert; [simpl; by eapply Hok|done].
Qed.

Lemma lk_use_hit ks lk e :
  lk !! ks = Some e →
  lk_use ks lk =
    (lk_val e, <[ks := mkLocalKey (lk_key e) (lk_val e) (S (lk_refcnt e)) (lk_verified e)]> lk).
Proof. intros E. unfold lk_use. by rewrite E. Qed.

Lemma lk_use_miss ks lk : lk !! ks = None → lk_use ks lk = (NoID, lk).
Proof. intros E. unfold lk_use. by rewrite E. Qed.
End LocalKeysFacts.

(** ** lockedAllocate *)

Section Locked.
Context {W K : Type} `{AllocatorKey K} `{Environment W K}.

Lemma lockedAllocate_frame ctx key (s : State W K) :
  wp (lockedAllocate ctx key)
     (λ _ s', settings (alloc s') = settings (alloc s) ∧
              mainCache (alloc s') = mainCache (alloc s)) s.
Proof. wp_run; done. Qed.

Lemma lockedAllocate_trace ctx key (s : State W K) :
  wp (lockedAllocate ctx key)
     (λ _ s', count isLock (trace s') = S (count isLock (trace s)) ∧
              count isBackoffWait (trace s') = count isBackoffWait (trace s)) s.
Proof. wp_run; done. Qed.

Lemma lockedAllocate_lk_ok ctx key (s : State W K) :
  lk_ok (localKeys (alloc s)) →
  wp (lockedAllocate ctx key) (λ _ s', lk_ok (localKeys (alloc s'))) s.
Proof.
  intros Hok. wp_run; simplify_eq.
  all: eauto 8 using lk_allocate_ok, lk_release_ok, lk_verify_ok.
Qed.

Lemma lockedAllocate_nil_nonzero ctx key (s : State W K) :
  wp (lockedAllocate ctx key) (λ r _, res_err r = None → res_id r ≠ NoID) s.
Proof. wp_run; done. Qed.

Lemma lockedAllocate_absent ctx key (s : State W K) :
  localKeys (alloc s) !! GetKey key = None →
  wp (lockedAllocate ctx key)
     (λ r s',
        match res_err r with
        | None =>
            ∃ e, localKeys (alloc s') !! GetKey key = Some e ∧
                 lk_refcnt e = 1 ∧ lk_val e = res_id r
        | Some _ => localKeys (alloc s') !! GetKey key = None
        end) s.
Proof.
  intros Habs. wp_run.
  all: simplify_eq.
  all: try match goal with
           | n : lk_lookupKey _ _ ≠ _ |- _ =>
               exfalso; apply n; unfold lk_lookupKey; by rewrite Habs
           end.
  all: unfold lk_allocate, lk_release, lk_verify in *.
  all: simplify_map_eq; eauto.
Qed.
End Locked.

Section Unwind.
Context {W K : Type} `{AllocatorKey K} `{Environment W K}.

Lemma Allocator_eta (a : Allocator K) lk mc p :
  lk = localKeys a → mc = mainCache a → p = idPool a →
  mkAllocator (events a) (min a) (max a) (prefixMask a) lk mc (stopGC a)
              (initialListDone a) p (enableMasterKeyProtection a)
              (disableGC a) (disableAutostart a) (operatorIDManagement a)
              (maxAllocAttempts a) (syncInterval a) (cacheValidators a) (backend a) = a.
Proof. intros -> -> ->. by destruct a. Qed.

Lemma allocateNewID_unwinds ctx key lock (s : State W K) :
  lk_lookupKey (GetKey key) (localKeys (alloc s)) = NoID →
  (LeaseAvailableID (leasePick (world s)) (idPool (alloc s))).1 ≠ NoID →
  wp (allocateNewID ctx key (GetKey key) lock)
     (λ r s', is_Some (res_err r) → alloc s' = alloc s) s.
Proof.
  intros Hlk Hlease. unfold lk_lookupKey in Hlk.
  wp_run; simplify_eq.
  all: intros Herr; try by destruct Herr.
  all: match goal with
       | Hl : LeaseAvailableID _ _ = _ |- _ =>
           rewrite Hl in Hlease; simpl in Hlease;
           apply LeaseAvailableID_spec in Hl as [(_ & ? & _)|[Hav ->]]; [done|]
       end.
  all: repeat case_decide; simplify_eq.
  all: try match goal with
           | Hz : N.lor _ _ = 0%N |- _ => apply N.lor_eq_0_iff in Hz as [? _]; done
           end.
  all: unfold lk_allocate, lk_release in *.
  all: destruct (localKeys (alloc s) !! GetKey key) as [entry|] eqn:E.
  all: simplify_map_eq.
  all: unfold NoID in *; try case_decide; simplify_eq; try congruence.
  all: unfold set_idPool, set_localKeys; simpl.
  all: apply Allocator_eta; try done.
  all: first [by apply release_after_lease | by apply release_after_use
             | by apply delete_insert_id].
Qed.

Lemma set_localKeys_id (a : Allocator K) : set_localKeys (localKeys a) a = a.
Proof. by destruct a. Qed.

(** C7: in the new-allocation path of [lockedAllocate] (the lock was
    taken, neither the cache nor the backend nor the local keys know the
    key, and an ID was leased), every failure leaves the allocator as it
    was before the call: the local reservation is gone and the leased ID
    is back in the pool. *)
Theorem lockedAllocate_unwinds ctx key (s : State W K) lock w1 w2 r s' :
  bLock (world s) ctx key = ((lock, None), w1) →
  cache_get (GetKey key) (mainCache (alloc s)) = NoID →
  bGetIfLocked w1 ctx key lock = ((NoID, None), w2) →
  lk_lookupKey (GetKey key) (localKeys (alloc s)) = NoID →
  (LeaseAvailableID (leasePick w2) (idPool (alloc s))).1 ≠ NoID →
  lockedAllocate ctx key s = (r, s') →
  is_Some (res_err r) →
  alloc s' = alloc s.
Proof.
  intros Hlock Hcache Hget Hlk Hlease Hrun. revert r s' Hrun.
  change (wp (lockedAllocate ctx key) (λ r s', is_Some (res_err r) → alloc s' = alloc s) s).
  unfold lockedAllocate, lockedAllocate_locked, resolveKnownKey, reuseGlobalKey,
    GetIfLocked, backend_Lock, backend_GetIfLocked, backend_UpdateKeyIfLocked,
    backend_AcquireReference, lock_Unlock.
  repeat (wp_step; cbn [fst snd alloc world trace localKeys idPool mainCache] in * ).
  all: repeat match goal with
              | Hl : bLock _ _ _ = _ |- _ => rewrite Hlock in Hl; simplify_eq
              | Hg : bGetIfLocked _ _ _ _ = _ |- _ => rewrite Hget in Hg; simplify_eq
              end.
  all: simplify_eq/=; try congruence.
  rewrite set_localKeys_id.
  eapply wp_mono; [by apply allocateNewID_unwinds|].
  intros r1 s1 Hs1. simpl in Hs1. repeat wp_step. done.
Qed.
End Unwind.

(** ** The attempt loop of Allocate *)

Section Attempts.
Context {W K : Type} `{AllocatorKey K} `{Environment W K}.

Lemma allocateAttempts_frame n err ctx key (s : State W K) :
  wp (allocateAttempts n err ctx key)
     (λ _ s', settings (alloc s') = settings (alloc s)) s.
Proof.
  revert err s. induction n as [|n IH]; intros err s; simpl.
  - by apply wp_ret.
  - wp_go; [done|].
    wp_call lockedAllocate_frame as [Hs Hc].
    unfold boff_Wait. wp_go; try done.
    wp_call IH as Hih. by rewrite Hih, Hs.
Qed.

Lemma allocateAttempts_lk_ok n err ctx key (s : State W K) :
  lk_ok (localKeys (alloc s)) →
  wp (allocateAttempts n err ctx key) (λ _ s', lk_ok (localKeys (alloc s'))) s.
Proof.
  revert err s. induction n as [|n IH]; intros err s Hok; simpl.
  - by apply wp_ret.
  - wp_go; [by eapply lk_use_ok|].
    wp_call lockedAllocate_lk_ok as Hok'; [by eapply lk_use_ok|].
    unfold boff_Wait. wp_go; try done.
    wp_call IH as Hih; done.
Qed.

Lemma allocateAttempts_nil_nonzero n err ctx key (s : State W K) :
  (n = 0 → is_Some err) →
  wp (allocateAttempts n err ctx key) (λ r _, res_err r = None → res_id r ≠ NoID) s.
Proof.
  revert err s. induction n as [|n IH]; intros err s Hn; simpl.
  - apply wp_ret. intros Herr. simpl in Herr. destruct (Hn eq_refl). congruence.
  - wp_go; [done|].
    wp_call lockedAllocate_nil_nonzero as Hnz.
    unfold boff_Wait. wp_go; try done.
    wp_call IH as Hih; [by eauto|done].
Qed.

Lemma allocateAttempts_exhaustion n err ctx key (s : State W K) :
  wp (allocateAttempts n err ctx key)
     (λ r s', res_err r = Some ErrNoMoreIDs →
              count isLock (trace s') = n + count isLock (trace s) ∧
              count isBackoffWait (trace s') = n + count isBackoffWait (trace s)) s.
Proof.
  revert err s. induction n as [|n IH]; intros err s; simpl.
  - by apply wp_ret.
  - wp_go; [done|].
    wp_call lockedAllocate_trace as [Hl Hb].
    unfold boff_Wait. wp_go; try done.
    + intros [=]. destruct e0; simplify_eq.
    + wp_call IH as Hih. intros Hr. specialize (Hih Hr).
      unfold count in *. simpl in *. lia.
Qed.

Lemma allocateAttempts_refs n err ctx key n0 (s : State W K) :
  refs_are (GetKey key) n0 (localKeys (alloc s)) →
  wp (allocateAttempts n err ctx key)
     (λ r s', allocated r → refs_are (GetKey key) (S n0) (localKeys (alloc s'))) s.
Proof.
  revert err s. induction n as [|n IH]; intros err s Hrefs; simpl.
  - apply wp_ret. by intros [_ ?].
  - unfold refs_are in Hrefs.
    destruct (localKeys (alloc s) !! GetKey key) as [e|] eqn:E.
    + destruct Hrefs as (Hn & Hn0 & Hval).
      wp_go; rewrite (lk_use_hit _ _ _ E) in *; simplify_eq.
      intros _. unfold refs_are. simpl. rewrite lookup_insert_eq. simpl. done.
    + subst n0. wp_go; rewrite (lk_use_miss _ _ E) in *; simplify_eq.
      wp_call lockedAllocate_absent as Habs; [done|].
      unfold boff_Wait. wp_go; try by intros [[=] _].
      * wp_call IH as Hih; [|done]. unfold refs_are. simpl. by rewrite Habs.
      * intros [_ Hid]. unfold refs_are.
        destruct Habs as (e & -> & ? & ?). unfold res_id in *; simpl in *. split_and!; try done; congruence.
Qed.
End Attempts.

(** ** GetWithRetry *)

Section GetRetry.
Context {W K : Type} `{AllocatorKey K} `{Environment W K}.

Lemma getID_spec ctx key (s : State W K) :
  wp (getID ctx key)
     (λ r s', alloc s' = alloc s ∧
              (trace s' = trace s ∨ trace s' = CallGet (GetKey key) :: trace s) ∧
              match r.2 with
              | None => r.1 ≠ NoID
              | Some e => e = ErrIdentityNotFound (KeyString key) ∨ ∃ msg, e = External msg
              end) s.
Proof.
  wp_run; simplify_eq/=.
  all: split_and!; eauto.
  all: destruct e; simplify_eq/=; eauto.
Qed.

Lemma getAttempts_spec n err ctx key (s : State W K) :
  wp (getAttempts n err ctx key)
     (λ r s',
        alloc s' = alloc s ∧
        (∃ t, trace s' = t ++ trace s ∧ Forall (pollEvent key) t ∧ count isGet t ≤ n) ∧
        match r.2 with
        | None => (n = 0 ∧ err = None ∧ r.1 = NoID) ∨ r.1 ≠ NoID
        | Some e => (n = 0 ∧ err = Some e) ∨ (n ≠ 0 ∧ pollError key e)
        end) s.
Proof.
  revert err s. induction n as [|n IH]; intros err s; simpl.
  - apply wp_ret. split_and!; [done|by exists []|destruct err; simpl; eauto].
  - wp_call getID_spec as (Ha & Ht & Hr).
    assert (∃ t, trace s' = t ++ trace s ∧ Forall (pollEvent key) t ∧ count isGet t ≤ 1)
      as (t & Htr & Hev & Hcnt).
    { destruct Ht as [Ht|Ht]; rewrite Ht.
      - exists []. split_and!; [done|constructor|unfold count; simpl; lia].
      - exists [CallGet (GetKey key)]. split_and!; [done| |unfold count; simpl; lia].
        constructor; [by left|constructor]. }
    unfold boff_Wait. wp_go; simpl in *; simplify_eq/=.
    + split_and!; [done|exists t; split_and!; [done|done|lia]|].
      right. split; [done|]. by left.
    + split_and!; [done| |].
      * exists (BackoffWait :: t). rewrite Htr. split_and!; [done| |].
        -- constructor; [by right|done].
        -- unfold count in *. simpl. lia.
      * right. split; [done|]. right. left. destruct e0; simplify_eq/=. eauto.
    + wp_call IH as (Ha' & (t' & Ht' & Hev' & Hcnt') & Hr').
      split_and!; [congruence| |].
      * exists (t' ++ BackoffWait :: t). rewrite Ht', Htr. simpl.
        split_and!; [by rewrite <- app_assoc| |].
        -- apply Forall_app. split; [done|]. constructor; [by right|done].
        -- unfold count in *. rewrite List.filter_app, length_app. simpl. lia.
      * destruct (r.2) as [e'|]; simpl in *.
        -- right. split; [done|]. destruct Hr' as [[-> [= <-]]|[_ ?]]; [|done].
           destruct Hr as [->|[msg ->]]; unfold pollError; eauto.
        -- destruct Hr' as [(_ & [=] & _)|?]. by right.
    + split_and!; [done|exists t; split_and!; [done|done|lia]|]. by right.
Qed.
End GetRetry.

(** ** GetWithRetry, round by round *)

Section GetRetryMore.
Context {W K : Type} `{AllocatorKey K} `{Environment W K}.

Lemma getID_cases ctx key (s : State W K) r s1 :
  getID ctx key s = (r, s1) →
  (∃ id, r = (id, None) ∧ id ≠ NoID ∧ Get ctx key s = ((id, None), s1)) ∨
  (∃ e, r = (NoID, Some e) ∧ missed ctx key s e s1).
Proof.
  unfold getID, bind, ret. destruct (Get ctx key s) as [[id err] s0] eqn:E.
  destruct err as [e|].
  - intros [= <- <-]. right. exists e. split; [done|]. exists id, (Some e). by split; [|left].
  - destruct (decide (id = NoID)) as [->|Hid]; intros [= <- <-].
    + right. eexists. split; [done|]. exists NoID, None. split; [done|]. by right.
    + left. by exists id.
Qed.

Lemma getID_missed ctx key (s : State W K) e s1 :
  missed ctx key s e s1 → getID ctx key s = ((NoID, Some e), s1).
Proof.
  intros (id & err & Hget & Hcase). unfold getID, bind, ret. rewrite Hget.
  destruct Hcase as [->|(-> & -> & ->)]; [done|].
  by destruct (decide (NoID = NoID)).
Qed.

Lemma getID_found ctx key (s : State W K) id s1 :
  Get ctx key s = ((id, None), s1) → id ≠ NoID → getID ctx key s = ((id, None), s1).
Proof.
  intros Hget Hid. unfold getID, bind, ret. rewrite Hget.
  by destruct (decide (id = NoID)).
Qed.

Lemma getAttempts_round n err ctx key (s : State W K) e s1 w :
  missed ctx key s e s1 →
  ctxDone (world s1) ctx = false →
  boffWait (world s1) ctx = (None, w) →
  getAttempts (S n) err ctx key s =
    getAttempts n (Some e) ctx key (mkState (alloc s1) w (BackoffWait :: trace s1)).
Proof.
  intros Hmiss Hctx Hwait. simpl.
  unfold bind, ctx_cancelled, boff_Wait, external_err, external.
  rewrite (getID_missed _ _ _ _ _ Hmiss). simpl. rewrite Hctx. simpl.
  unfold bind, ret. by rewrite Hwait.
Qed.

(** After [j] missed rounds the loop goes on from where they ended. *)
Lemma getAttempts_skip ctx key j (s : State W K) last sj :
  missedRounds ctx key j s last sj →
  ∀ n err, getAttempts (j + n) err ctx key s =
           getAttempts n (if j is O then err else last) ctx key sj.
Proof.
  induction 1 as [s|j s last s1 e s2 w _ IH Hmiss Hctx Hwait]; intros n err; [done|].
  replace (S j + n) with (j + S n) by lia.
  rewrite IH. by apply getAttempts_round.
Qed.

Lemma getAttempts_polled ctx key n j (s0 : State W K) last s :
  missedRounds ctx key j s0 last s →
  wp (getAttempts n last ctx key) (λ r s', polled ctx key (j + n) s0 r s') s.
Proof.
  revert j last s. induction n as [|n IH]; intros j last s Hrounds; simpl.
  - apply wp_ret. replace (j + 0) with j by lia. by constructor.
  - apply wp_bind. intros r s1 Hid.
    apply getID_cases in Hid as [(id & -> & Hnz & Hget)|(e & -> & Hmiss)]; simpl.
    + apply wp_ret. eapply polled_found; [|done..]. lia.
    + unfold boff_Wait. wp_go.
      * eapply polled_cancelled; [|done..]. lia.
      * destruct e0 as [msg|]; simplify_eq/=.
        eapply polled_timeout; [|done..]. lia.
      * destruct e0; simplify_eq/=.
        eapply wp_mono; [apply (IH (S j)); by econstructor|].
        intros r s2 Hp. by replace (j + S n) with (S j + n) by lia.
Qed.
End GetRetryMore.

(** ** Allocate and Release as steps of a live allocator *)

Section Calls.
Context {W K : Type} `{AllocatorKey K} `{Environment W K}.

Lemma settings_fields (a b : Allocator K) :
  settings a = settings b →
  min a = min b ∧ max a = max b ∧ prefixMask a = prefixMask b ∧
  stopGC a = stopGC b ∧ initialListDone a = initialListDone b ∧
  operatorIDManagement a = operatorIDManagement b ∧
  maxAllocAttempts a = maxAllocAttempts b.
Proof.
  unfold settings, set_localKeys, set_mainCache, set_idPool. simpl.
  intros [= ]. done.
Qed.

Lemma Allocate_settings ctx key (s : State W K) r s' :
  Allocate ctx key s = Returns (r, s') → settings (alloc s') = settings (alloc s).
Proof.
  unfold Allocate. destruct (waitInitialList ctx s) as [[|]|]; [|by intros [= <- <-]|done].
  destruct (operatorIDManagement (alloc s)).
  - destruct (GetWithRetry ctx key s) as [[id err] s1] eqn:E. intros [= <- <-].
    destruct (wp_elim _ _ _ _ _ (getAttempts_spec _ _ _ _ _) E) as [-> _]. done.
  - intros [= Hrun]. exact (wp_elim _ _ _ _ _ (allocateAttempts_frame _ _ _ _ _) Hrun).
Qed.

Lemma Allocate_lk_ok ctx key (s : State W K) r s' :
  Allocate ctx key s = Returns (r, s') →
  lk_ok (localKeys (alloc s)) → lk_ok (localKeys (alloc s')).
Proof.
  unfold Allocate. destruct (waitInitialList ctx s) as [[|]|]; [|by intros [= <- <-]|done].
  destruct (operatorIDManagement (alloc s)).
  - destruct (GetWithRetry ctx key s) as [[id err] s1] eqn:E. intros [= <- <-].
    destruct (wp_elim _ _ _ _ _ (getAttempts_spec _ _ _ _ _) E) as [-> _]. done.
  - intros [= Hrun] Hok.
    exact (wp_elim _ _ _ _ _ (allocateAttempts_lk_ok _ _ _ _ _ Hok) Hrun).
Qed.

Lemma Allocate_localKeys ctx key (s : State W K) r s' :
  Allocate ctx key s = Returns (r, s') →
  localKeys (alloc s') = localKeys (alloc s) ∨
  (operatorIDManagement (alloc s) = false ∧ (0 < maxAllocAttempts (alloc s))%Z).
Proof.
  unfold Allocate. destruct (waitInitialList ctx s) as [[|]|]; [|by left; simplify_eq|done].
  destruct (operatorIDManagement (alloc s)).
  - destruct (GetWithRetry ctx key s) as [[id err] s1] eqn:E. intros [= <- <-].
    destruct (wp_elim _ _ _ _ _ (getAttempts_spec _ _ _ _ _) E) as [-> _]. by left.
  - intros [= Hrun]. destruct (decide (0 < maxAllocAttempts (alloc s))%Z); [by right|].
    left. unfold range_int in Hrun. rewrite Z2Nat.nonpos in Hrun by lia.
    simpl in Hrun. by injection Hrun as _ <-.
Qed.

Lemma Release_settings ctx key (s : State W K) r s' :
  Release ctx key s = Returns (r, s') → settings (alloc s') = settings (alloc s).
Proof.
  unfold Release, on_localKeys, backend_Release, external_err, external, bind, ret.
  intros Hrun. repeat case_match; simplify_eq; done.
Qed.

Lemma Release_lk_ok ctx key (s : State W K) r s' :
  Release ctx key s = Returns (r, s') →
  lk_ok (localKeys (alloc s)) → lk_ok (localKeys (alloc s')).
Proof.
  unfold Release, on_localKeys, backend_Release, external_err, external, bind, ret.
  intros Hrun Hok. repeat case_match; simplify_eq; simpl; eauto using lk_release_ok.
Qed.

Lemma lk_release_empty (ks : string) (r : bool * N * option error)
      (lk' : gmap string (localKey K)) :
  lk_release ks ∅ = (r, lk') → lk' = ∅.
Proof. unfold lk_release. rewrite lookup_empty. by intros [= _ <-]. Qed.

Lemma Release_empty ctx key (s : State W K) r s' :
  Release ctx key s = Returns (r, s') →
  localKeys (alloc s) = ∅ → localKeys (alloc s') = ∅.
Proof.
  unfold Release, on_localKeys, backend_Release, external_err, external, bind, ret.
  intros Hrun Hemp. rewrite Hemp in Hrun.
  repeat case_match; simplify_eq; simpl; eauto using lk_release_empty.
Qed.

(** *** The invariant of live allocators *)

Lemma apply_options_fixed opts (a : Allocator K) :
  localKeys (apply_options opts a) = localKeys a ∧
  stopGC (apply_options opts a) = stopGC a.
Proof.
  unfold apply_options. revert a. induction opts as [|fn opts IH]; intros a; [done|].
  simpl. destruct (IH (apply_option fn a)) as [-> ->].
  by destruct a, fn.
Qed.

Lemma NewAllocator_invariant backend opts (a : Allocator K) :
  NewAllocator backend opts = (Some a, None) → live_invariant a.
Proof.
  unfold NewAllocator.
  destruct (apply_options_fixed opts (initialAllocator backend)) as [Hlk Hgc].
  repeat case_decide; intros [= <-].
  match goal with |- live_invariant (if _ then ?x else _) => set (X := x) end.
  assert (live_invariant X) as HX.
  { unfold live_invariant, X. simpl in *. rewrite Hlk, Hgc. simpl.
    split_and!; [apply lk_ok_empty|done|done|lia|lia]. }
  clearbody X. destruct (disableAutostart _); [exact HX|].
  unfold live_invariant, start, set_initialListDone in *. simpl. exact HX.
Qed.

Lemma step_invariant (a a' : Allocator K) :
  step W a a' → live_invariant a → live_invariant a'.
Proof.
  intros Hstep (Hok & Hne & Hgc & Hmin & Hmax). unfold live_invariant.
  destruct Hstep as [a|a _|a c p|a w t ctx key r s' Hrun|a w t ctx key r s' Hrun].
  - done.
  - done.
  - done.
  - destruct (settings_fields _ _ (Allocate_settings _ _ _ _ _ Hrun))
      as (-> & -> & _ & -> & _ & -> & ->).
    split_and!; [by eapply Allocate_lk_ok|..|done|done|done].
    intros Hne'. destruct (Allocate_localKeys _ _ _ _ _ Hrun) as [Heq|?]; [|done].
    simpl in Heq. apply Hne. by rewrite <- Heq.
  - destruct (settings_fields _ _ (Release_settings _ _ _ _ _ Hrun))
      as (-> & -> & _ & -> & _ & -> & ->).
    split_and!; [by eapply Release_lk_ok|..|done|done|done].
    intros Hne'. apply Hne. intros Hemp. apply Hne'.
    by eapply Release_empty.
Qed.

Lemma reachable_invariant (a : Allocator K) : reachable W a → live_invariant a.
Proof.
  intros (backend & opts & a0 & Hnew & Hsteps).
  apply NewAllocator_invariant in Hnew.
  induction Hsteps as [|x y z Hxy _ IH]; [done|].
  apply IH. by eapply step_invariant.
Qed.
End Calls.

(** ** The claims about single calls and about construction *)

Section Claims.
Context {W K : Type} `{AllocatorKey K} `{Environment W K}.

(** With a positive attempt budget a nil error comes with a real ID. *)
Lemma Allocate_nil_error_nonzero ctx key (s : State W K) r s' :
  (0 < maxAllocAttempts (alloc s))%Z →
  Allocate ctx key s = Returns (r, s') →
  res_err r = None → res_id r ≠ NoID.
Proof.
  intros Hmax. unfold Allocate.
  destruct (waitInitialList ctx s) as [[|]|]; [|by intros [= <- <-]|done].
  assert (range_int (maxAllocAttempts (alloc s)) ≠ 0) as Hn
      by (unfold range_int; lia).
  destruct (operatorIDManagement (alloc s)).
  - destruct (GetWithRetry ctx key s) as [[id err] s1] eqn:E. intros [= <- <-].
    destruct (wp_elim _ _ _ _ _ (getAttempts_spec _ _ _ _ _) E) as (_ & _ & Hr).
    simpl in *. intros ->. by destruct Hr as [[? _]|?].
  - intros [= Hrun].
    refine (wp_elim _ _ _ _ _ (allocateAttempts_nil_nonzero _ _ _ _ _ _) Hrun).
    done.
Qed.

(** Without a positive budget neither loop body runs: once past the
    first select, [Allocate] returns its zero values and a nil error. *)
Lemma Allocate_no_attempts ctx key (s : State W K) :
  (maxAllocAttempts (alloc s) ≤ 0)%Z →
  waitInitialList ctx s = Some true →
  Allocate ctx key s = Returns ((NoID, false, false, None), s).
Proof.
  intros Hmax Hwait. unfold Allocate, GetWithRetry, range_int.
  rewrite Hwait, Z2Nat.nonpos by done. simpl. by destruct (operatorIDManagement _).
Qed.

(** C2: a key with a nonzero local reference count is served by the
    local fast path. On a live allocator, a call that gets past its first
    select returns the ID of the entry with [isNew = false],
    [firstUse = false] and a nil error; the reference count is one higher,
    the mapping is inserted into the main cache, and the world and the
    trace are as before, so no backend call was made. *)
Theorem Allocate_local_fast_path (a : Allocator K) (w : W) t ctx key :
  reachable W a →
  lk_refs (GetKey key) (localKeys a) ≠ 0 →
  waitInitialList ctx (mkState a w t) = Some true →
  ∃ e,
    localKeys a !! GetKey key = Some e ∧
    Allocate ctx key (mkState a w t) =
      Returns
        ((lk_val e, false, false, None),
         mkState
           (set_mainCache
              (cache_insert key (lk_val e) (mainCache a))
              (set_localKeys
                 (<[GetKey key := mkLocalKey (lk_key e) (lk_val e)
                                             (S (lk_refcnt e)) (lk_verified e)]>
                    (localKeys a)) a))
           w t).
Proof.
  intros Hreach Hrefs Hwait. unfold lk_refs in Hrefs.
  destruct (localKeys a !! GetKey key) as [e|] eqn:E; [|done].
  exists e. split; [done|].
  destruct (reachable_invariant _ Hreach) as (Hok & Hne & _).
  destruct Hne as [Hop Hmax]; [by intros Hemp; rewrite Hemp, lookup_empty in E|].
  unfold Allocate. rewrite Hwait. simpl. rewrite Hop.
  destruct (range_int (maxAllocAttempts a)) as [|n] eqn:En;
    [unfold range_int in En; lia|].
  simpl. unfold bind, on_localKeys, mainCache_insert, ret. simpl.
  rewrite (lk_use_hit _ _ _ E). destruct (decide (lk_val e ≠ NoID)) as [|Hz]; [done|].
  destruct Hz. by eapply Hok.
Qed.

(** C5 (amended): with an already cancelled context, [Allocate] returns
    the cancellation error of its first select, leaving the allocator,
    the world and the trace untouched, whenever the initial key list is
    not yet done or the runtime picks the [ctx.Done()] case. *)
Theorem Allocate_cancelled_before_sync ctx key (s : State W K) :
  ctxDone (world s) ctx = true →
  initialListDone (alloc s) ≠ ChanClosed ∨ selectPick (world s) = false →
  Allocate ctx key s = Returns (failed (ErrAllocCancelledInitial ContextErr), s).
Proof.
  intros Hctx Hsel. unfold Allocate, waitInitialList. rewrite Hctx.
  destruct Hsel as [Hil| ->]; by destruct (initialListDone (alloc s)).
Qed.

(** C9: with operatorIDManagement enabled [Release] returns
    [(false, nil)] at once: whatever the state of the initial list and of
    the context, the local keys, the world and the trace are unchanged. *)
Theorem Release_skipped ctx key (s : State W K) :
  operatorIDManagement (alloc s) = true →
  Release ctx key s = Returns ((false, None), s).
Proof. intros Hop. unfold Release. by rewrite Hop. Qed.

Lemma step_min_max (a a' : Allocator K) :
  step W a a' → min a' = min a ∧ max a' = max a.
Proof.
  intros [b|b _|b c p|b w t ctx key r s' Hrun|b w t ctx key r s' Hrun]; try done.
  - by destruct (settings_fields _ _ (Allocate_settings _ _ _ _ _ Hrun)) as (? & ? & _).
  - by destruct (settings_fields _ _ (Release_settings _ _ _ _ _ Hrun)) as (? & ? & _).
Qed.

Lemma steps_min_max (a a' : Allocator K) :
  rtc (step W) a a' → min a' = min a ∧ max a' = max a.
Proof.
  induction 1 as [|x y z Hxy _ [-> ->]]; [done|]. by apply step_min_max.
Qed.

(** C8: [NewAllocator] fails, whatever the options, when the configured
    minimum is below 1 or the configured maximum is not above the
    minimum; when it succeeds, [1 <= min < max] holds of the allocator it
    returns and of every state that allocator later reaches, with the
    configured values. *)
Theorem NewAllocator_validates_range backend opts :
  let cfg : Allocator K := apply_options opts (initialAllocator backend) in
  ((min cfg < 1)%N ∨ (max cfg ≤ min cfg)%N →
     ∃ e, NewAllocator (K:=K) backend opts = (None, Some e)) ∧
  (∀ a a', NewAllocator backend opts = (Some a, None) →
           rtc (step W) a a' →
           (1 ≤ min a')%N ∧ (min a' < max a')%N ∧
           min a' = min cfg ∧ max a' = max cfg).
Proof.
  intros cfg. split.
  - intros Hbad. unfold NewAllocator. fold cfg. simpl.
    destruct (decide (min cfg < 1)%N); [by eauto|].
    destruct (decide (max cfg ≤ min cfg)%N); [by eauto|]. lia.
  - intros a a' Hnew Hsteps.
    destruct (steps_min_max _ _ Hsteps) as [-> ->].
    unfold NewAllocator in Hnew. fold cfg in Hnew. simpl in Hnew.
    destruct (decide (min cfg < 1)%N); [done|].
    destruct (decide (max cfg ≤ min cfg)%N); [done|].
    injection Hnew as <-.
    destruct (disableAutostart _); simpl; split_and!; done || lia.
Qed.

(** C10: [Delete] is not idempotent. On a live allocator the first call
    closes [stopGC] and stops the cache; a second call on the result
    closes the closed channel again and panics. *)
Theorem Delete_twice_panics (a : Allocator K) :
  reachable W a →
  ∃ a', Delete a = Returns a' ∧ stopGC a' = ChanClosed ∧ Delete a' = Panics.
Proof.
  intros Hreach. destruct (reachable_invariant _ Hreach) as (_ & _ & Hgc & _).
  unfold Delete. rewrite Hgc. simpl. eexists. split; [done|]. done.
Qed.
End Claims.

(** ** Reference counting over a series of calls *)

Section Counting.
Context {W K : Type} `{AllocatorKey K} `{Environment W K}.

Lemma repeatCall_snoc {A} n (call : State W K → Outcome (A * State W K)) s rs s1 r s2 :
  repeatCall n call s = Returns (rs, s1) →
  call s1 = Returns (r, s2) →
  repeatCall (S n) call s = Returns (rs ++ [r], s2).
Proof.
  revert s rs. induction n as [|n IH]; intros s rs Hrep Hcall.
  - simpl in *. simplify_eq. by rewrite Hcall.
  - simpl in Hrep. destruct (call s) as [[r0 s0]| |] eqn:E0; [|done|done].
    destruct (repeatCall n call s0) as [[rs0 s0']| |] eqn:Er; [|done|done].
    simplify_eq. specialize (IH _ _ Er Hcall).
    change (repeatCall (S (S n)) call s) with
      (match call s with
       | Returns (r, s1) =>
           match repeatCall (S n) call s1 with
           | Returns (rs, s2) => Returns (r :: rs, s2)
           | Blocks => Blocks
           | Panics => Panics
           end
       | Blocks => Blocks
       | Panics => Panics
       end).
    by rewrite E0, IH.
Qed.

Lemma Release_not_last ctx key (s : State W K) n :
  operatorIDManagement (alloc s) = false →
  waitInitialList ctx s = Some true →
  refs_are (GetKey key) (S (S n)) (localKeys (alloc s)) →
  ∃ lk,
    Release ctx key s =
      Returns ((false, None), mkState (set_localKeys lk (alloc s)) (world s) (trace s)) ∧
    refs_are (GetKey key) (S n) lk.
Proof.
  intros Hop Hwait Hrefs. unfold refs_are in Hrefs.
  destruct (localKeys (alloc s) !! GetKey key) as [e|] eqn:E; [|done].
  destruct Hrefs as (Hcnt & _ & Hval).
  unfold Release, on_localKeys, lk_release. rewrite Hop, Hwait, E, Hcnt. simpl.
  eexists. split; [done|]. unfold refs_are. rewrite lookup_insert_eq. done.
Qed.

Lemma Release_last ctx key (s : State W K) :
  operatorIDManagement (alloc s) = false →
  waitInitialList ctx s = Some true →
  refs_are (GetKey key) 1 (localKeys (alloc s)) →
  ∃ id w,
    Release ctx key s =
      Returns ((true, None),
               mkState (set_localKeys (delete (GetKey key) (localKeys (alloc s))) (alloc s))
                       w (CallRelease id (GetKey key) :: trace s)).
Proof.
  intros Hop Hwait Hrefs. unfold refs_are in Hrefs.
  destruct (localKeys (alloc s) !! GetKey key) as [e|] eqn:E; [|done].
  destruct Hrefs as (Hcnt & _ & Hval).
  unfold Release, on_localKeys, lk_release, backend_Release, external_err, external,
    bind, ret.
  rewrite Hop, Hwait, E, Hcnt. simpl.
  destruct (bRelease (world s) ctx (lk_val e) key) as [err w]. by eexists _, _.
Qed.

Lemma Release_countdown ctx key n (s : State W K) :
  operatorIDManagement (alloc s) = false →
  waitInitialList ctx s = Some true →
  refs_are (GetKey key) (S n) (localKeys (alloc s)) →
  ∃ s1 id w,
    repeatCall n (Release ctx key) s = Returns (replicate n (false, None), s1) ∧
    world s1 = world s ∧ trace s1 = trace s ∧
    Release ctx key s1 =
      Returns ((true, None),
               mkState (set_localKeys (delete (GetKey key) (localKeys (alloc s1))) (alloc s1))
                       w (CallRelease id (GetKey key) :: trace s)).
Proof.
  revert s. induction n as [|n IH]; intros s Hop Hwait Hrefs.
  - destruct (Release_last _ _ _ Hop Hwait Hrefs) as (id & w & Hrel).
    exists s, id, w. done.
  - destruct (Release_not_last _ _ _ _ Hop Hwait Hrefs) as (lk & Hrel & Hrefs').
    destruct (IH (mkState (set_localKeys lk (alloc s)) (world s) (trace s)))
      as (s1 & id & w & Hrep & Hw & Ht & Hlast); [done|done|done|].
    exists s1, id, w. simpl. rewrite Hrel, Hrep. done.
Qed.

Lemma repeat_Allocate_refs ctx key m n0 (s : State W K) rs s1 :
  operatorIDManagement (alloc s) = false →
  refs_are (GetKey key) n0 (localKeys (alloc s)) →
  repeatCall m (Allocate ctx key) s = Returns (rs, s1) →
  Forall allocated rs →
  refs_are (GetKey key) (m + n0) (localKeys (alloc s1)) ∧
  operatorIDManagement (alloc s1) = false.
Proof.
  revert n0 s rs. induction m as [|m IH]; intros n0 s rs Hop Hrefs Hrun Hall; simpl in *.
  - by simplify_eq.
  - destruct (Allocate ctx key s) as [[r s0]| |] eqn:Ea; [|done|done].
    destruct (repeatCall m (Allocate ctx key) s0) as [[rs0 s2]| |] eqn:Er; [|done|done].
    simplify_eq. apply Forall_cons in Hall as [Hr Hrs].
    assert (operatorIDManagement (alloc s0) = false) as Hop0.
    { destruct (settings_fields _ _ (Allocate_settings _ _ _ _ _ Ea))
        as (_ & _ & _ & _ & _ & -> & _). done. }
    assert (refs_are (GetKey key) (S n0) (localKeys (alloc s0))) as Hrefs0.
    { unfold Allocate in Ea. rewrite Hop in Ea.
      destruct (waitInitialList ctx s) as [[|]|]; [| |done].
      - injection Ea as Ea.
        exact (wp_elim _ _ _ _ _ (allocateAttempts_refs _ _ _ _ _ _ Hrefs) Ea Hr).
      - simplify_eq. by destruct Hr as [[=] _]. }
    destruct (IH _ _ _ Hop0 Hrefs0 Er Hrs) as [Hfin ?].
    split; [|done]. by replace (S (m + n0)) with (m + S n0) by lia.
Qed.

(** C3: a key without local references is allocated [M + 1] times, each
    call returning an ID and a nil error, and then released [M + 1]
    times. The first [M] releases return [lastUse = false] and leave the
    world and the trace as they were; the last one returns
    [lastUse = true] and adds exactly one entry to the trace, the
    backend's [Release]. *)
Theorem Mth_release_is_last ctx ctx' key M (s : State W K) rs s1 :
  operatorIDManagement (alloc s) = false →
  localKeys (alloc s) !! GetKey key = None →
  repeatCall (S M) (Allocate ctx key) s = Returns (rs, s1) →
  Forall allocated rs →
  waitInitialList ctx' s1 = Some true →
  ∃ s2 s3 id,
    repeatCall M (Release ctx' key) s1 = Returns (replicate M (false, None), s2) ∧
    world s2 = world s1 ∧ trace s2 = trace s1 ∧
    Release ctx' key s2 = Returns ((true, None), s3) ∧
    trace s3 = CallRelease id (GetKey key) :: trace s1 ∧
    localKeys (alloc s3) !! GetKey key = None ∧
    repeatCall (S M) (Release ctx' key) s1 =
      Returns (replicate M (false, None) ++ [(true, None)], s3).
Proof.
  intros Hop Habs Hrun Hall Hwait.
  destruct (repeat_Allocate_refs ctx key (S M) 0 s rs s1) as [Hrefs Hop1]; try done.
  { unfold refs_are. by rewrite Habs. }
  replace (S M + 0) with (S M) in Hrefs by lia.
  destruct (Release_countdown ctx' key M s1 Hop1 Hwait Hrefs)
    as (s2 & id & w & Hrep & Hw & Ht & Hlast).
  eexists s2, _, id. split_and!; try done.
  - simpl. apply lookup_delete_eq.
  - by eapply repeatCall_snoc.
Qed.
End Counting.

(** ** Pool exhaustion and operator-managed identities *)

Section Modes.
Context {W K : Type} `{AllocatorKey K} `{Environment W K}.

Lemma allocateNewID_exhausted ctx key lock (s : State W K) :
  availableIDs (idPool (alloc s)) = [] →
  allocateNewID ctx key (GetKey key) lock s = (failed ErrNoMoreIDs, s).
Proof.
  intros Hav. unfold allocateNewID, selectAvailableID, on_idPool, bind, ret,
    LeaseAvailableID.
  rewrite Hav. simpl.
  destruct s as [a w t]. simpl. do 2 f_equal. by destruct a.
Qed.

(** C4 (amended): with no available ID the allocation of a new ID fails at
    once with the exhaustion error and changes nothing; [Allocate] treats
    that like any failed attempt, so a call that returns the exhaustion
    error has used up its whole budget: [maxAllocAttempts] backend locks
    and as many backoff waits. *)
Theorem exhaustion_is_the_last_error ctx key lock (s : State W K) r s' :
  (availableIDs (idPool (alloc s)) = [] →
     allocateNewID ctx key (GetKey key) lock s = (failed ErrNoMoreIDs, s)) ∧
  (Allocate ctx key s = Returns (r, s') →
   res_err r = Some ErrNoMoreIDs →
     count isLock (trace s') =
       range_int (maxAllocAttempts (alloc s)) + count isLock (trace s) ∧
     count isBackoffWait (trace s') =
       range_int (maxAllocAttempts (alloc s)) + count isBackoffWait (trace s)).
Proof.
  split; [apply allocateNewID_exhausted|].
  unfold Allocate. destruct (waitInitialList ctx s) as [[|]|]; [|by intros [= <- <-]|done].
  destruct (operatorIDManagement (alloc s)).
  - destruct (GetWithRetry ctx key s) as [[id err] s1] eqn:E. intros [= <- <-].
    destruct (wp_elim _ _ _ _ _ (getAttempts_spec _ _ _ _ _) E) as (_ & _ & Hr).
    simpl in *. intros ->.
    destruct Hr as [[_ [=]]|[_ Hp]].
    by destruct Hp as [|[[? ?]|[|[? ?]]]].
  - intros [= Hrun].
    exact (wp_elim _ _ _ _ _ (allocateAttempts_exhaustion _ _ _ _ _) Hrun).
Qed.

(** C6 (amended): with operatorIDManagement enabled [Allocate] leaves the
    allocator (local keys, pool, cache) as it was and reaches the backend
    only through [Get], at most [maxAllocAttempts] times, with backoff
    waits in between; [isNew] and [firstUse] are false. With a budget of
    at least one attempt, a nil error comes with a real ID, and an error
    is a cancellation, the timeout naming the key, the not-found error
    naming the key, or the backend's own error from [Get]. Past its first
    select the call is a poll ([polled]): it returns the ID that a [Get]
    found, at the first [Get] that finds one, every round before having
    missed; an error it returns at the end of its budget is what the last
    round kept of its [Get]. Conversely, whenever a [Get] within the
    budget finds the mapping after rounds that all missed, the call
    returns [(id, false, false, nil)] with that ID, in the state that
    [Get] left. *)
Theorem operator_mode_only_polls ctx key (s : State W K) r s' :
  operatorIDManagement (alloc s) = true →
  Allocate ctx key s = Returns (r, s') →
  alloc s' = alloc s ∧
  (∃ t, trace s' = t ++ trace s ∧ Forall (pollEvent key) t ∧
        count isGet t ≤ range_int (maxAllocAttempts (alloc s))) ∧
  res_isNew r = false ∧ res_firstUse r = false ∧
  ((0 < maxAllocAttempts (alloc s))%Z →
     match res_err r with
     | None => res_id r ≠ NoID
     | Some e => e = ErrAllocCancelledInitial ContextErr ∨ pollError key e
     end) ∧
  (waitInitialList ctx s = Some true →
     polled ctx key (range_int (maxAllocAttempts (alloc s))) s (res_id r, res_err r) s') ∧
  (∀ j last sj id s1,
     waitInitialList ctx s = Some true →
     j < range_int (maxAllocAttempts (alloc s)) →
     missedRounds ctx key j s last sj →
     Get ctx key sj = ((id, None), s1) →
     id ≠ NoID →
     r = (id, false, false, None) ∧ s' = s1).
Proof.
  intros Hop. unfold Allocate. rewrite Hop.
  destruct (waitInitialList ctx s) as [[|]|]; [| |done].
  - destruct (GetWithRetry ctx key s) as [[id err] s1] eqn:E. intros [= <- <-].
    destruct (wp_elim _ _ _ _ _ (getAttempts_spec _ _ _ _ _) E) as (Ha & Ht & Hr).
    split_and!; try done.
    + intros Hmax. simpl in *.
      assert (range_int (maxAllocAttempts (alloc s)) ≠ 0) by (unfold range_int; lia).
      destruct err as [e|]; [right|]; by destruct Hr as [[? _]|?]; [|try tauto].
    + intros _.
      exact (wp_elim _ _ _ _ _
               (getAttempts_polled ctx key _ 0 s None s (missedRounds_O ctx key s)) E).
    + intros j last sj id' s2 _ Hj Hrounds Hget Hid.
      unfold GetWithRetry in E.
      replace (range_int (maxAllocAttempts (alloc s)))
        with (j + S (range_int (maxAllocAttempts (alloc s)) - S j)) in E by lia.
      rewrite (getAttempts_skip _ _ _ _ _ _ Hrounds) in E. simpl in E.
      unfold bind in E. rewrite (getID_found _ _ _ _ _ Hget Hid) in E.
      unfold ret in E. simpl in E. by simplify_eq.
  - intros [= <- <-]. split_and!; try done; [|by left].
    exists []. split_and!; [done|constructor|unfold count; simpl; lia].
Qed.
End Modes.

(** ** Runs in the scripted environment *)

Import Script.

Section Scripted.
Local Open Scope string_scope.
Lemma built_small :
  NewAllocator 0 [WithMin 1; WithMax 3] = (Some (built [WithMin 1; WithMax 3]), None).
Proof. vm_compute. reflexivity. Qed.

Lemma small_reachable : reachable World small.
Proof.
  exists 0, [WithMin 1; WithMax 3], (built [WithMin 1; WithMax 3]).
  split; [exact built_small|].
  eapply rtc_l; [|apply rtc_refl]. by apply step_listDone.
Qed.

Lemma fooOnce_run :
  Allocate (Ctx 0) "foo" (run false true 0 accepting small) =
    Returns ((2%N, true, true, None), fooOnce).
Proof. vm_compute. reflexivity. Qed.

Lemma small_to_fooOnce : rtc (step World) (built [WithMin 1; WithMax 3]) (alloc fooOnce).
Proof.
  eapply rtc_l; [by apply step_listDone|].
  eapply rtc_l; [|apply rtc_refl].
  exact (step_Allocate small _ [] (Ctx 0) "foo" _ fooOnce fooOnce_run).
Qed.

Lemma fooOnce_reachable : reachable World (alloc fooOnce).
Proof.
  exists 0, [WithMin 1; WithMax 3], (built [WithMin 1; WithMax 3]).
  split; [exact built_small|exact small_to_fooOnce].
Qed.

(** C1: refuted by the code. An allocator built with
    [WithMaxAllocAttempts(0)] runs neither loop body: [Allocate] returns
    the sentinel ID 0 together with a nil error, without any backend
    call. *)
Theorem zero_attempts_zero_id_nil_error :
  (NewAllocator (K:=string) 0 [WithMin 1; WithMax 3; WithMaxAllocAttempts 0]).2 = None ∧
  Allocate (Ctx 0) "foo" (run false true 0 accepting zeroBudget) =
    Returns ((NoID, false, false, None), run false true 0 accepting zeroBudget).
Proof. split; vm_compute; reflexivity. Qed.

(** The fast path on the allocator that holds one reference to "foo". *)
Lemma Allocate_local_fast_path_witness :
  ∃ e,
    localKeys (alloc fooOnce) !! GetKey "foo" = Some e ∧
    Allocate (Ctx 0) "foo" (mkState (alloc fooOnce) (world fooOnce) (trace fooOnce)) =
      Returns
        ((lk_val e, false, false, None),
         mkState
           (set_mainCache
              (cache_insert "foo" (lk_val e) (mainCache (alloc fooOnce)))
              (set_localKeys
                 (<[GetKey "foo" := mkLocalKey (lk_key e) (lk_val e)
                                               (S (lk_refcnt e)) (lk_verified e)]>
                    (localKeys (alloc fooOnce))) (alloc fooOnce)))
           (world fooOnce) (trace fooOnce)).
Proof.
  apply (Allocate_local_fast_path (alloc fooOnce) (world fooOnce) (trace fooOnce)
                                  (Ctx 0) "foo").
  - exact fooOnce_reachable.
  - vm_compute. discriminate.
  - reflexivity.
Defined.

(** Two allocations of "foo", then two releases. *)
Lemma Mth_release_is_last_witness :
  ∃ s2 s3 id,
    repeatCall 1 (Release (Ctx 1) "foo") fooTwice = Returns (replicate 1 (false, None), s2) ∧
    world s2 = world fooTwice ∧ trace s2 = trace fooTwice ∧
    Release (Ctx 1) "foo" s2 = Returns ((true, None), s3) ∧
    trace s3 = CallRelease id (GetKey "foo") :: trace fooTwice ∧
    localKeys (alloc s3) !! GetKey "foo" = None ∧
    repeatCall 2 (Release (Ctx 1) "foo") fooTwice =
      Returns ((replicate 1 (false, None) ++ [(true, None)])%list, s3).
Proof.
  apply (Mth_release_is_last (Ctx 0) (Ctx 1) "foo" 1 (run false true 0 accepting small)
           [(2%N, true, true, None); (2%N, false, false, None)] fooTwice).
  - reflexivity.
  - vm_compute. reflexivity.
  - vm_compute. reflexivity.
  - repeat constructor; discriminate.
  - reflexivity.
Defined.

(** C4, as stated, fails: the pool is exhausted, and [Allocate] with a
    budget of two attempts locks twice and backs off twice before it
    returns the exhaustion error. *)
Lemma exhaustion_is_retried :
  let s := run false true 0 [Ok 7; Ok 0; Ok 0; Ok 7; Ok 0; Ok 0] twoAttempts in
  availableIDs (idPool (alloc s)) = [] ∧ ¬ surfaces_at_once s (Ctx 0) "bar".
Proof.
  intros s. split; [vm_compute; reflexivity|].
  intros Hclaim.
  destruct (Hclaim (failed ErrNoMoreIDs) (after (Allocate (Ctx 0) "bar" s) s))
    as (_ & Hlocks & _); [vm_compute; reflexivity|].
  vm_compute in Hlocks. lia.
Qed.

(** The exhausted pool with a budget of two attempts. *)
Lemma exhaustion_is_the_last_error_witness :
  let s := run false true 0 [Ok 7; Ok 0; Ok 0; Ok 7; Ok 0; Ok 0] twoAttempts in
  let s' := after (Allocate (Ctx 0) "bar" s) s in
  allocateNewID (Ctx 0) "bar" (GetKey "bar") 7 s = (failed ErrNoMoreIDs, s) ∧
  count isLock (trace s') = 2 ∧ count isBackoffWait (trace s') = 2.
Proof.
  intros s s'.
  destruct (exhaustion_is_the_last_error (Ctx 0) "bar" 7 s (failed ErrNoMoreIDs) s')
    as [Hnew Hloop].
  split; [apply Hnew; vm_compute; reflexivity|].
  apply Hloop; vm_compute; reflexivity.
Defined.

(** C5, as stated, fails: the context is cancelled before the call, the
    initial list is done and the runtime picks that case. [Allocate] goes
    on to [lockedAllocate], whose [Lock] call reaches the backend; the
    backend refuses it and only then does [Allocate] report the
    cancellation. *)
Lemma cancelled_context_reaches_backend :
  let s := run true true 0 [Fail "context canceled"] small in
  ctxDone (world s) (Ctx 0) = true ∧
  (∃ s', Allocate (Ctx 0) "foo" s = Returns (failed (ErrKeyAllocCancelled ContextErr), s') ∧
         trace s' = [CallLock "foo"]) ∧
  ¬ cancelled_without_io s (Ctx 0) "foo".
Proof.
  intros s. split; [reflexivity|]. split.
  - eexists. split; vm_compute; reflexivity.
  - intros (e & s' & Hrun & _ & Htrace). vm_compute in Hrun.
    injection Hrun as _ <-. discriminate Htrace.
Qed.

(** A cancelled context, and the runtime picks the [ctx.Done()] case. *)
Lemma Allocate_cancelled_before_sync_witness :
  let s := run true false 0 accepting small in
  Allocate (Ctx 0) "foo" s = Returns (failed (ErrAllocCancelledInitial ContextErr), s).
Proof.
  intros s. apply (Allocate_cancelled_before_sync (Ctx 0) "foo" s).
  - reflexivity.
  - right. reflexivity.
Defined.

(** C6, as stated, fails: with a budget of one attempt and a backend
    whose [Get] fails, [Allocate] returns the backend's error as it is,
    which is neither the timeout nor the not-found error and does not
    name the key. *)
Lemma backend_error_is_passed_on :
  let s := run false true 0 [Fail "etcd unavailable"; Ok 0] (operatorMode 1) in
  operatorIDManagement (alloc s) = true ∧ ¬ fails_naming_key s (Ctx 0) "foo".
Proof.
  intros s. split; [reflexivity|].
  intros Hclaim.
  destruct (Hclaim (failed (External "etcd unavailable"))
                   (after (Allocate (Ctx 0) "foo" s) s)
                   (External "etcd unavailable"))
    as [Hc|[[c Hc]|Hc]]; try discriminate; try reflexivity.
Qed.

(** The mapping appears at the second [Get]. *)
Lemma operator_mode_only_polls_witness :
  let s := run false true 0 [Ok 0; Ok 0; Ok 5] (operatorMode 3) in
  let s' := after (Allocate (Ctx 0) "foo" s) s in
  alloc s' = alloc s ∧
  (∃ t, trace s' = (t ++ trace s)%list ∧ Forall (pollEvent "foo") t ∧
        (count isGet t ≤ range_int (maxAllocAttempts (alloc s)))%nat) ∧
  res_isNew (5%N, false, false, None) = false ∧
  res_firstUse (5%N, false, false, None) = false ∧
  ((0 < maxAllocAttempts (alloc s))%Z →
     match res_err (5%N, false, false, None) with
     | None => res_id (5%N, false, false, None) ≠ NoID
     | Some e => e = ErrAllocCancelledInitial ContextErr ∨ pollError "foo" e
     end) ∧
  (waitInitialList (Ctx 0) s = Some true →
     polled (Ctx 0) "foo" (range_int (maxAllocAttempts (alloc s))) s
            (res_id (5%N, false, false, None), res_err (5%N, false, false, None)) s') ∧
  (∀ j last sj id s1,
     waitInitialList (Ctx 0) s = Some true →
     (j < range_int (maxAllocAttempts (alloc s)))%nat →
     missedRounds (Ctx 0) "foo" j s last sj →
     Get (Ctx 0) "foo" sj = ((id, None), s1) →
     id ≠ NoID →
     ((5%N, false, false, None) : AllocResult) = (id, false, false, None) ∧ s' = s1).
Proof.
  intros s s'.
  apply (operator_mode_only_polls (Ctx 0) "foo" s (5%N, false, false, None) s').
  - reflexivity.
  - vm_compute. reflexivity.
Defined.

(** The conditional create is refused by the backend. *)
Lemma lockedAllocate_unwinds_witness :
  let s := run false true 0 [Ok 7; Ok 0; Ok 0; Fail "conflict"] small in
  (lockedAllocate (Ctx 0) "foo" s).1 =
    failed (ErrAllocateID 2 "foo" (External "conflict")) ∧
  alloc (lockedAllocate (Ctx 0) "foo" s).2 = alloc s.
Proof.
  intros s. split; [vm_compute; reflexivity|].
  apply (lockedAllocate_unwinds (Ctx 0) "foo" s 7
           (mkWorld false true 0 [Ok 0; Ok 0; Fail "conflict"])
           (mkWorld false true 0 [Ok 0; Fail "conflict"])
           (failed (ErrAllocateID 2 "foo" (External "conflict")))).
  - reflexivity.
  - reflexivity.
  - reflexivity.
  - reflexivity.
  - vm_compute. discriminate.
  - vm_compute. reflexivity.
  - by eexists.
Defined.

(** [WithMin(0)] is refused; the range [[1,3]] is kept through a run. *)
Lemma NewAllocator_validates_range_witness :
  (∃ e, NewAllocator (K:=string) 0 [WithMin 0] = (None, Some e)) ∧
  (1 ≤ min (alloc fooOnce))%N ∧ (min (alloc fooOnce) < max (alloc fooOnce))%N ∧
  min (alloc fooOnce) = 1%N ∧ max (alloc fooOnce) = 3%N.
Proof.
  split.
  - apply (proj1 (NewAllocator_validates_range (W:=World) (K:=string) 0 [WithMin 0])).
    left. vm_compute. reflexivity.
  - exact (proj2 (NewAllocator_validates_range (W:=World) (K:=string) 0 [WithMin 1; WithMax 3])
                 (built [WithMin 1; WithMax 3]) (alloc fooOnce)
                 built_small small_to_fooOnce).
Defined.

(** A release under operator-managed identities. *)
Lemma Release_skipped_witness :
  let s := run false true 0 accepting (operatorMode 3) in
  Release (Ctx 0) "foo" s = Returns ((false, None), s).
Proof. intros s. apply (Release_skipped (Ctx 0) "foo" s). reflexivity. Defined.

(** The synced allocator over [[1,3]], deleted twice. *)
Lemma Delete_twice_panics_witness :
  ∃ a', Delete small = Returns a' ∧ stopGC a' = ChanClosed ∧ Delete a' = Panics.
Proof. apply (Delete_twice_panics (W:=World) small). exact small_reachable. Defined.
End Scripted.

(** ** More of lockedAllocate *)

Ltac extends_solve :=
  repeat first [ apply extends_none
               | apply extends_more; [by split|] ].

Section LockedMore.
Context {W K : Type} `{AllocatorKey K} `{Environment W K}.

Lemma extends_by_app P old t :
  extends_by P old t ↔ ∃ mid, t = mid ++ old ∧ Forall P mid.
Proof.
  split.
  - induction 1 as [|ev t Hev _ (mid & -> & Hmid)].
    + by exists [].
    + exists (ev :: mid). split; [done|by constructor].
  - intros (mid & -> & Hmid). induction Hmid; simpl; by constructor.
Qed.

Lemma extends_under lock old t (t' : list Event) :
  t' = CallUnlock lock :: t →
  extends_by underLock old t →
  ∃ mid, t' = CallUnlock lock :: mid ++ old ∧ Forall underLock mid.
Proof.
  intros -> (mid & -> & Hmid)%extends_by_app. by exists mid.
Qed.

(** X1: [lockedAllocate] and the backend lock. When [Lock] fails, the call
    returns the backend's error as it is and has done nothing else: the
    allocator is unchanged and [Lock] is the only external call. When
    [Lock] succeeds, the last thing the call does, on every path, is to
    unlock the very lock it was given, and between the two no lock is
    taken or released. *)
Theorem lockedAllocate_lock_discipline ctx key (s : State W K) lock e w r s' :
  bLock (world s) ctx key = ((lock, e), w) →
  lockedAllocate ctx key s = (r, s') →
  match e with
  | Some msg =>
      r = failed (External msg) ∧
      s' = mkState (alloc s) w (CallLock (GetKey key) :: trace s)
  | None =>
      ∃ mid, trace s' = CallUnlock lock :: mid ++ CallLock (GetKey key) :: trace s ∧
             Forall underLock mid
  end.
Proof.
  intros Hlock Hrun.
  refine (wp_elim _ (λ r s', match e with Some _ => _ | None => _ end) _ _ _ _ Hrun).
  clear r s' Hrun. destruct e as [msg|]; wp_run.
  all: match goal with
       | Hl : bLock _ _ _ = _ |- _ => rewrite Hlock in Hl; simplify_eq
       end.
  all: simplify_eq/=; try done.
  all: apply (extends_under _ _ _ _ eq_refl); extends_solve.
Qed.

(** X2: [lockedAllocate] writes a master key at most once per call,
    with [AllocateIDIfLocked] or with [UpdateKeyIfLocked]. A call that
    returns a nil error has called [AllocateIDIfLocked] exactly when it
    reports [isNew], then for the ID it returns and the key it was given,
    and without any [UpdateKeyIfLocked]; if it has called
    [UpdateKeyIfLocked] (the re-creation of a lost master key), that was
    for the returned ID, and [isNew] is false. Such a call has acquired
    exactly one reference, for the returned ID, and that was its last
    backend call before the unlock. *)
Theorem lockedAllocate_create_discipline ctx key (s : State W K) r s' :
  lockedAllocate ctx key s = (r, s') →
  count isAllocateID (trace s') + count isUpdateKey (trace s') ≤
    1 + (count isAllocateID (trace s) + count isUpdateKey (trace s)) ∧
  (res_err r = None →
     count isAllocateID (trace s') =
       (if res_isNew r then 1 else 0) + count isAllocateID (trace s) ∧
     (res_isNew r = true →
        CallAllocateIDIfLocked (res_id r) (GetKey key) ∈ trace s' ∧
        count isUpdateKey (trace s') = count isUpdateKey (trace s)) ∧
     (count isUpdateKey (trace s') ≠ count isUpdateKey (trace s) →
        res_isNew r = false ∧
        CallUpdateKeyIfLocked (res_id r) (GetKey key) true ∈ trace s') ∧
     count isAcquireReference (trace s') = 1 + count isAcquireReference (trace s) ∧
     ∃ lock k' t,
       trace s' = CallUnlock lock :: CallAcquireReference (res_id r) k' :: t).
Proof.
  intros Hrun. refine (wp_elim _ (λ r s', _ ∧ (_ → _)) _ _ _ _ Hrun).
  clear r s' Hrun. wp_run.
  all: unfold count; simpl; split; [lia|]; intros Hnil; try done.
  all: split_and!; [lia| | |lia|by eexists _, _, _].
  all: intros Hyp; first [done | lia | split; [set_solver|lia] | split; [done|set_solver]].
Qed.

Lemma land_lor_mask (u m : N) : N.land (N.lor u m) m = m.
Proof.
  apply N.bits_inj. intros i. rewrite N.land_spec, N.lor_spec.
  by destruct (N.testbit u i), (N.testbit m i).
Qed.

(** X3: what a successful [lockedAllocate] does to the ID pool. With
    [isNew] the returned ID is an ID [u] that was available, ORed with the
    prefix mask (so the mask's bits are set in it), and [u] has left the
    pool: it is in use. Without [isNew] the pool is as it was. *)
Theorem lockedAllocate_pool_effect ctx key (s : State W K) r s' :
  lockedAllocate ctx key s = (r, s') →
  res_err r = None →
  if res_isNew r
  then ∃ u, idPool (alloc s) !! u = Some Available ∧
            u ≠ NoID ∧
            res_id r = N.lor u (prefixMask (alloc s)) ∧
            N.land (res_id r) (prefixMask (alloc s)) = prefixMask (alloc s) ∧
            idPool (alloc s') = delete u (idPool (alloc s))
  else idPool (alloc s') = idPool (alloc s).
Proof.
  intros Hrun. refine (wp_elim _ (λ r s', _ → if res_isNew r then _ else _) _ _ _ _ Hrun).
  clear r s' Hrun. wp_run.
  all: simplify_eq/=; intros Hnil; try done.
  all: match goal with
       | Hl : LeaseAvailableID _ _ = _ |- _ =>
           apply LeaseAvailableID_spec in Hl as [(_ & -> & _)|[Hav ->]]
       end.
  all: repeat case_decide; simplify_eq; try done.
  all: eexists; split_and!; [done|done|done|apply land_lor_mask|].
  all: unfold idPool_Use; by rewrite delete_insert_eq.
Qed.
End LockedMore.

(** ** The master key that the backend lost *)

Section Recreate.
Context {W K : Type} `{AllocatorKey K} `{Environment W K}.

(** X4: the backend has lost the master key of a key this node still
    holds (lines 552-562). [lockedAllocate] then re-creates the master key
    under the local ID with [UpdateKeyIfLocked(id, key, true)]; it neither
    leases an ID nor creates a new one. On success it returns the local ID
    with [isNew = false] and [firstUse = false], and the local reference
    count is as before. When the reference cannot be acquired, the error
    path's [localKeys.release] takes one local reference away, although
    this call had taken none. *)
Theorem lockedAllocate_recreates_master_key ctx key (s : State W K) lock w1 w2 e r s' :
  bLock (world s) ctx key = ((lock, None), w1) →
  cache_get (GetKey key) (mainCache (alloc s)) = NoID →
  bGetIfLocked w1 ctx key lock = ((NoID, None), w2) →
  localKeys (alloc s) !! GetKey key = Some e →
  lk_val e ≠ NoID →
  lockedAllocate ctx key s = (r, s') →
  idPool (alloc s') = idPool (alloc s) ∧
  count isAllocateID (trace s') = count isAllocateID (trace s) ∧
  CallUpdateKeyIfLocked (lk_val e) (GetKey key) true ∈ trace s' ∧
  (res_err r = None →
     r = (lk_val e, false, false, None) ∧
     lk_refs (GetKey key) (localKeys (alloc s')) = lk_refcnt e) ∧
  (∀ cause, res_err r = Some (ErrCreateSecondaryKey (GetKey key) cause) →
     lk_refs (GetKey key) (localKeys (alloc s')) = Nat.pred (lk_refcnt e)).
Proof.
  intros Hlock Hcache Hget Hlk Hval Hrun.
  refine (wp_elim _ (λ r s', _ ∧ _ ∧ _ ∧ (_ → _) ∧ (∀ cause, _ = Some (_ cause) → _)) _ _ _ _ Hrun).
  clear r s' Hrun. wp_run.
  all: repeat match goal with
              | Hl : bLock _ _ _ = _ |- _ => rewrite Hlock in Hl; simplify_eq
              | Hg : bGetIfLocked _ _ _ _ = _ |- _ => rewrite Hget in Hg; simplify_eq
              end.
  all: simplify_eq/=; try congruence.
  all: try match goal with
           | n : ¬ lk_lookupKey _ _ ≠ _ |- _ =>
               exfalso; apply n; unfold lk_lookupKey; by rewrite Hlk
           end.
  all: unfold lk_lookupKey, lk_verify, lk_release, lk_refs in *.
  all: rewrite ?Hlk in *; simplify_eq/=; try done.
  all: unfold count; simpl; split_and!;
    [done|done|set_solver|intros Hnil; try done|intros cause Hc; try done].
  - destruct (Nat.pred (lk_refcnt e)); simplify_eq.
    + by rewrite lookup_delete_eq.
    + by rewrite lookup_insert_eq.
  - by rewrite lookup_insert_eq.
Qed.
End Recreate.

(** ** Allocate and the main cache *)

Section RoundTrip.
Context {W K : Type} `{AllocatorKey K} `{Environment W K}.

Lemma wp_any {A} (m : M W K A) (s : State W K) : wp m (λ _ _, True) s.
Proof. by intros r s' _. Qed.

Lemma wp_conj {A} (m : M W K A) (Φ Ψ : A → State W K → Prop) (s : State W K) :
  wp m Φ s → wp m Ψ s → wp m (λ r s', Φ r s' ∧ Ψ r s') s.
Proof. intros H1 H2 r s' Hrun. split; [by apply H1|by apply H2]. Qed.

Lemma cache_get_insert (key : K) val (c : cache K) :
  cache_get (GetKey key) (cache_insert key val c) = val.
Proof. unfold cache_get, cache_insert. simpl. by rewrite lookup_insert_eq. Qed.

Lemma allocateAttempts_cached n err ctx key (s : State W K) :
  wp (allocateAttempts n err ctx key)
     (λ r s', allocated r →
              cache_get (GetKey key) (mainCache (alloc s')) = res_id r) s.
Proof.
  revert err s. induction n as [|n IH]; intros err s; simpl.
  - apply wp_ret. by intros [_ ?].
  - wp_go; [intros _; apply cache_get_insert|].
    eapply wp_mono; [apply wp_any|]. intros r1 s1 _. wp_cbn.
    unfold boff_Wait. wp_go; try by intros [[=] _].
    + wp_call IH as Hih. done.
    + intros _. apply cache_get_insert.
Qed.

(** X5: after a successful [Allocate], the main cache maps the key to the
    returned ID, so a [Get] of that key, with any context, returns this ID
    and a nil error without reaching the backend. *)
Theorem Allocate_then_Get ctx ctx' key (s : State W K) r s' :
  operatorIDManagement (alloc s) = false →
  Allocate ctx key s = Returns (r, s') →
  allocated r →
  cache_get (GetKey key) (mainCache (alloc s')) = res_id r ∧
  Get ctx' key s' = ((res_id r, None), s').
Proof.
  intros Hop Hrun Hr.
  assert (cache_get (GetKey key) (mainCache (alloc s')) = res_id r) as Hc.
  { unfold Allocate in Hrun. rewrite Hop in Hrun.
    destruct (waitInitialList ctx s) as [[|]|]; [| |done].
    - injection Hrun as Hrun.
      exact (wp_elim _ _ _ _ _ (allocateAttempts_cached _ _ _ _ _) Hrun Hr).
    - simplify_eq. by destruct Hr as [[=] _]. }
  split; [done|].
  unfold Get, mainCache_get, bind, ret. rewrite Hc.
  destruct Hr as [_ Hid]. by destruct (decide (res_id r ≠ NoID)).
Qed.
End RoundTrip.

(** ** The attempt budget and cancellation *)


Section Budget.
Context {W K : Type} `{AllocatorKey K} `{Environment W K}.






End Budget.

(** ** Release and the backend *)

Section ReleaseFacts.
Context {W K : Type} `{AllocatorKey K} `{Environment W K}.

Lemma State_eta (s : State W K) :
  mkState (set_localKeys (localKeys (alloc s)) (alloc s)) (world s) (trace s) = s.
Proof. destruct s as [a w t]. simpl. by rewrite set_localKeys_id. Qed.

(** X8: [Release] reaches the backend exactly when it returns
    [lastUse = true]. Then the key had a local entry that is now removed,
    the one external call is the backend's [Release] with the ID of that
    entry, and the returned error is nil whatever the backend answered.
    With [lastUse = false] the world and the trace are untouched, and a
    call that fails has changed nothing at all. *)
Theorem Release_reaches_backend_on_last_use ctx key (s : State W K) lastUse err s' :
  Release ctx key s = Returns ((lastUse, err), s') →
  if lastUse
  then err = None ∧
       ∃ e, localKeys (alloc s) !! GetKey key = Some e ∧
            lk_refcnt e ≤ 1 ∧
            trace s' = CallRelease (lk_val e) (GetKey key) :: trace s ∧
            localKeys (alloc s') = delete (GetKey key) (localKeys (alloc s))
  else world s' = world s ∧ trace s' = trace s ∧ (is_Some err → s' = s).
Proof.
  unfold Release, on_localKeys, lk_release, backend_Release, external_err, external,
    bind, ret.
  destruct (operatorIDManagement (alloc s)); [by intros [= <- <- <-]|].
  destruct (waitInitialList ctx s) as [[|]|]; [|by intros [= <- <- <-]|done].
  destruct (localKeys (alloc s) !! GetKey key) as [e|] eqn:E.
  - destruct (Nat.pred (lk_refcnt e)) as [|n] eqn:En; simpl.
    + destruct (bRelease (world s) ctx (lk_val e) key) as [e' w].
      intros [= <- <- <-]. split; [done|]. exists e. split_and!; [done|lia|done|done].
    + intros [= <- <- <-]. split_and!; [done|done|]. by intros [? [=]].
  - simpl. intros [= <- <- <-]. split_and!; [done|done|]. intros _. apply State_eta.
Qed.
End ReleaseFacts.

(** ** Before and after the initial key list *)

Section Fresh.
Context {W K : Type} `{AllocatorKey K} `{Environment W K}.

Lemma apply_options_initialListDone opts (a : Allocator K) :
  initialListDone (apply_options opts a) = initialListDone a.
Proof.
  unfold apply_options. revert a. induction opts as [|fn opts IH]; intros a; [done|].
  simpl. rewrite IH. by destruct a, fn.
Qed.

Lemma NewAllocator_not_synced backend opts (a : Allocator K) :
  NewAllocator backend opts = (Some a, None) → chan_ready (initialListDone a) = false.
Proof.
  unfold NewAllocator.
  pose proof (apply_options_initialListDone opts (initialAllocator backend)) as Hil.
  repeat case_decide; intros [= <-].
  destruct (disableAutostart _); [|done].
  simpl in *. by rewrite Hil.
Qed.

(** X9: an allocator as [NewAllocator] returns it, started or not, has
    not seen its initial key list: [Allocate], [WaitForInitialSync] and
    (unless identities are operator-managed) [Release] return their
    cancellation error, leaving the state as it is, when the context is
    cancelled, and block otherwise. *)
Theorem fresh_allocator_waits backend opts (a : Allocator K) (w : W) t ctx key :
  NewAllocator backend opts = (Some a, None) →
  let s := mkState a w t in
  Allocate ctx key s =
    (if ctxDone w ctx then Returns (failed (ErrAllocCancelledInitial ContextErr), s)
     else Blocks) ∧
  WaitForInitialSync ctx s =
    (if ctxDone w ctx then Returns (Some (ErrSyncCancelled ContextErr)) else Blocks) ∧
  (operatorIDManagement a = false →
   Release ctx key s =
     (if ctxDone w ctx then Returns ((false, Some (ErrReleaseCancelled ContextErr)), s)
      else Blocks)).
Proof.
  intros Hnew s. apply NewAllocator_not_synced in Hnew.
  unfold Allocate, WaitForInitialSync, Release, waitInitialList, select2. simpl.
  rewrite Hnew. split_and!; [| |intros ->]; by destruct (ctxDone w ctx).
Qed.

(** X10: the allocator of [NewAllocatorForGC], whatever the options, has
    nil channels: [Delete] panics on it, and [Allocate] blocks unless its
    context is cancelled. *)
Theorem gc_allocator_is_not_for_allocation backend opts (w : W) t ctx key :
  let a : Allocator K := NewAllocatorForGC backend opts in
  Delete a = Panics ∧
  Allocate ctx key (mkState a w t) =
    (if ctxDone w ctx
     then Returns (failed (ErrAllocCancelledInitial ContextErr), mkState a w t)
     else Blocks).
Proof.
  intros a. unfold a, NewAllocatorForGC, Delete, Allocate, waitInitialList.
  cbn [alloc world trace].
  match goal with
  | |- context [apply_options opts ?a0] =>
      destruct (apply_options_fixed opts a0) as [_ ->];
      rewrite (apply_options_initialListDone opts a0)
  end.
  simpl. split; [done|]. by destruct (ctxDone w ctx).
Qed.

Lemma called_settings (a a' : Allocator K) :
  called W a a' → settings a' = settings a.
Proof.
  intros [b w t ctx key r s' Hrun|b w t ctx key r s' Hrun].
  - exact (Allocate_settings _ _ _ _ _ Hrun).
  - exact (Release_settings _ _ _ _ _ Hrun).
Qed.

(** X11: the initial sync is permanent. Once [WaitForInitialSync] has
    returned nil, [initialListDone] is closed and stays closed through any
    number of returned [Allocate] and [Release] calls, in any world: the
    first select of [Allocate], [Release] and [WaitForInitialSync] is
    ready from then on, and with a live context it takes the
    [initialListDone] case, so [WaitForInitialSync] returns nil again.
    (Nothing is said of the waits on the backend further on in a call.) *)
Theorem initial_sync_is_permanent ctx (s : State W K) a' (w' : W) t' ctx' :
  WaitForInitialSync ctx s = Returns None →
  rtc (called W) (alloc s) a' →
  let s' := mkState a' w' t' in
  initialListDone a' = ChanClosed ∧
  waitInitialList ctx' s' ≠ None ∧
  (ctxDone w' ctx' = false →
     waitInitialList ctx' s' = Some true ∧
     WaitForInitialSync ctx' s' = Returns None).
Proof.
  intros Hsync Hcalls s'.
  assert (initialListDone (alloc s) = ChanClosed) as Hclosed.
  { unfold WaitForInitialSync, waitInitialList, select2 in Hsync.
    destruct (initialListDone (alloc s)); simpl in Hsync; [..|done].
    all: by destruct (ctxDone _ _). }
  assert (initialListDone a' = initialListDone (alloc s)) as Hil.
  { clear Hsync Hclosed. induction Hcalls as [|x y z Hxy _ IH]; [done|].
    rewrite IH.
    by destruct (settings_fields _ _ (called_settings _ _ Hxy)) as (_ & _ & _ & _ & -> & _). }
  unfold WaitForInitialSync, waitInitialList, select2. simpl.
  rewrite Hil, Hclosed. simpl.
  split_and!; [done|by destruct (ctxDone w' ctx'), (selectPick w')|].
  by intros ->.
Qed.
End Fresh.

(** ** Lookups that include the remote caches *)

Section Remote.
Context {W K : Type} `{AllocatorKey K} `{Environment W K}.

Lemma firstCached_spec k (rcs : list (cache K)) :
  (firstCached k rcs = NoID ∧ Forall (λ rc, cache_get k rc = NoID) rcs) ∨
  (firstCached k rcs ≠ NoID ∧ ∃ rc, rc ∈ rcs ∧ cache_get k rc = firstCached k rcs).
Proof.
  induction rcs as [|rc rcs IH]; simpl.
  - left. by split.
  - case_decide as Hrc.
    + right. split; [done|]. exists rc. split; [by left|done].
    + destruct IH as [[Hz Hall]|[Hnz (rc' & Hin & Hget)]].
      * left. split; [done|]. constructor; [|done].
        destruct (decide (cache_get k rc = NoID)); [done|by destruct Hrc].
      * right. split; [done|]. exists rc'. split; [by right|done].
Qed.

(** X12: [GetIncludeRemoteCaches] never changes the allocator and looks
    the key up in this order: a hit in the main cache is returned without
    looking further; else, if some remote cache knows the key, the result
    is an ID one of them holds, again without any backend call; only if
    all caches miss is the backend asked, exactly once, and its answer
    returned as it is. *)
Theorem GetIncludeRemoteCaches_lookup_order ctx key rcs (s : State W K) id err s' :
  GetIncludeRemoteCaches ctx key rcs s = ((id, err), s') →
  alloc s' = alloc s ∧
  (cache_get (GetKey key) (mainCache (alloc s)) ≠ NoID →
     id = cache_get (GetKey key) (mainCache (alloc s)) ∧ err = None ∧ s' = s) ∧
  (cache_get (GetKey key) (mainCache (alloc s)) = NoID →
     if decide (Forall (λ rc, cache_get (GetKey key) rc = NoID) rcs)
     then trace s' = CallGet (GetKey key) :: trace s ∧
          (id, err) = ((bGet (world s) ctx key).1.1, External <$> (bGet (world s) ctx key).1.2)
     else id ≠ NoID ∧ err = None ∧ s' = s ∧
          ∃ rc, rc ∈ rcs ∧ cache_get (GetKey key) rc = id).
Proof.
  unfold GetIncludeRemoteCaches, mainCache_get, backend_Get, external_val, external, bind, ret.
  destruct (decide (cache_get (GetKey key) (mainCache (alloc s)) ≠ NoID)) as [Hmain|Hmain].
  - intros [= <- <- <-]. split_and!; [done|done|]. intros Hz. by destruct Hmain.
  - destruct (firstCached_spec (GetKey key) rcs) as [[Hz Hall]|[Hnz (rc & Hin & Hget)]].
    + rewrite Hz. destruct (decide (NoID ≠ NoID)); [done|].
      destruct (bGet (world s) ctx key) as [[id' e'] w'] eqn:Eg. simpl.
      intros Hrun. split_and!.
      * by case_decide; simplify_eq.
      * intros ?. by destruct Hmain.
      * intros _. rewrite decide_True by done.
        case_decide as Hd; simplify_eq; [done|].
        split; [done|]. destruct e'; simpl in *.
        -- destruct Hd. right. by eexists.
        -- destruct (decide (id' = NoID)) as [->|]; [done|]. destruct Hd. by left.
    + destruct (decide (firstCached (GetKey key) rcs ≠ NoID)); [|done].
      intros [= <- <- <-]. split_and!; [done|by intros ?; destruct Hmain|].
      intros _. rewrite decide_False; [by split_and!; eauto|].
      intros Hall. rewrite Forall_forall in Hall. rewrite <- Hget in Hnz.
      by apply Hnz, Hall.
Qed.
End Remote.

(** ** Local reference accounting *)

Section Accounting.
Context {W K : Type} `{AllocatorKey K} `{Environment W K}.

Lemma lockedAllocate_absent_map ctx key (s : State W K) :
  localKeys (alloc s) !! GetKey key = None →
  wp (lockedAllocate ctx key)
     (λ r s',
        match res_err r with
        | None =>
            ∃ e, localKeys (alloc s') = <[GetKey key := e]> (localKeys (alloc s)) ∧
                 lk_refcnt e = 1 ∧ lk_val e = res_id r ∧ res_firstUse r = true
        | Some _ => localKeys (alloc s') = localKeys (alloc s)
        end) s.
Proof.
  intros Habs. wp_run.
  all: simplify_eq.
  all: try match goal with
           | n : lk_lookupKey _ _ ≠ _ |- _ =>
               exfalso; apply n; unfold lk_lookupKey; by rewrite Habs
           end.
  all: unfold lk_allocate, lk_release, lk_verify in *.
  all: simplify_map_eq; try done.
  all: try by apply delete_insert_id.
  all: eexists; split; [apply insert_insert_eq|done].
Qed.

Lemma allocateAttempts_accounted n err ctx key (s : State W K) :
  (∀ e, localKeys (alloc s) !! GetKey key = Some e → lk_val e ≠ NoID) →
  wp (allocateAttempts n err ctx key) (accounted key s) s.
Proof.
  revert err s. induction n as [|n IH]; intros err s Hok; simpl.
  - apply wp_ret. split; [by intros [_ ?]|done].
  - destruct (localKeys (alloc s) !! GetKey key) as [e|] eqn:E.
    + wp_go; rewrite (lk_use_hit _ _ _ E) in *; simplify_eq.
      2: { match goal with n : ¬ _ ≠ _ |- _ => destruct n; by apply Hok end. }
      split; [|by intros []].
      intros _. eexists. unfold lk_refs. rewrite E. split_and!; try done.
      by intros ? [= <-].
    + wp_go; rewrite (lk_use_miss _ _ E) in *; simplify_eq.
      eapply wp_mono;
        [apply wp_conj; [by apply lockedAllocate_absent_map|apply lockedAllocate_nil_nonzero]|].
      intros r0 s0 [Habs Hnz]. wp_cbn.
      unfold boff_Wait. wp_go.
      * split; [by intros [[=] _]|done].
      * split; [by intros [[=] _]|done].
      * eapply wp_mono; [apply IH; simpl; by rewrite Habs, E|].
        intros r1 s1 Hacc. unfold accounted in *. simpl in *. by rewrite Habs in Hacc.
      * destruct Habs as (e & Hlk & Hcnt & Hval & Hfirst).
        split; [|intros []; split; [done|]].
        -- intros _. exists e. unfold lk_refs. rewrite E. split_and!; try done.
        -- by apply Hnz.
Qed.

Lemma Allocate_accounted ctx key (s : State W K) r s' :
  (∀ e, localKeys (alloc s) !! GetKey key = Some e → lk_val e ≠ NoID) →
  operatorIDManagement (alloc s) = false →
  Allocate ctx key s = Returns (r, s') →
  accounted key s r s'.
Proof.
  intros Hok Hop. unfold Allocate. rewrite Hop.
  destruct (waitInitialList ctx s) as [[|]|]; [| |done].
  - intros [= Hrun]. exact (wp_elim _ _ _ _ _ (allocateAttempts_accounted _ _ _ _ _ Hok) Hrun).
  - intros [= <- <-]. split; [by intros [[=] _]|done].
Qed.

(** X13: the book-keeping of [Allocate] on the local keys. A successful
    call (identities not operator-managed) changes the entry of its key
    only: the entry holds the returned ID and one reference more than
    before. Every other call, also every failing one, leaves the local
    keys exactly as they were. *)
Theorem Allocate_local_accounting ctx key (s : State W K) r s' :
  lk_ok (localKeys (alloc s)) →
  Allocate ctx key s = Returns (r, s') →
  (operatorIDManagement (alloc s) = false → allocated r →
     ∃ e, localKeys (alloc s') = <[GetKey key := e]> (localKeys (alloc s)) ∧
          lk_val e = res_id r ∧
          lk_refcnt e = S (lk_refs (GetKey key) (localKeys (alloc s)))) ∧
  (operatorIDManagement (alloc s) = true ∨ ¬ allocated r →
     localKeys (alloc s') = localKeys (alloc s)).
Proof.
  intros Hok Hrun.
  destruct (operatorIDManagement (alloc s)) eqn:Hop.
  - split; [done|]. intros _. unfold Allocate in Hrun. rewrite Hop in Hrun.
    destruct (waitInitialList ctx s) as [[|]|]; [|by simplify_eq|done].
    destruct (GetWithRetry ctx key s) as [[id err] s1] eqn:E. simplify_eq.
    by destruct (wp_elim _ _ _ _ _ (getAttempts_spec _ _ _ _ _) E) as [-> _].
  - destruct (Allocate_accounted ctx key s r s') as [Hyes Hno]; [by eauto|done|done|].
    split.
    + intros _ Hr. destruct (Hyes Hr) as (e & ? & ? & ? & _). by exists e.
    + intros [[=]|Hr]. by apply Hno.
Qed.


(** X15: a successful [Allocate] reports [firstUse] exactly when the key
    had no local entry before the call, and [isNew] only together with
    [firstUse]. *)
Theorem Allocate_firstUse ctx key (s : State W K) r s' :
  lk_ok (localKeys (alloc s)) →
  operatorIDManagement (alloc s) = false →
  Allocate ctx key s = Returns (r, s') →
  allocated r →
  (res_firstUse r = true ↔ localKeys (alloc s) !! GetKey key = None) ∧
  (res_isNew r = true → res_firstUse r = true).
Proof.
  intros Hok Hop Hrun Hr.
  destruct (Allocate_accounted ctx key s r s') as [Hyes _]; [by eauto|done|done|].
  destruct (Hyes Hr) as (e & _ & _ & _ & _ & Hfirst). split; [done|].
  intros Hnew. apply Hfirst.
  destruct (localKeys (alloc s) !! GetKey key) as [e0|] eqn:E; [|done].
  exfalso. revert Hnew. unfold Allocate in Hrun. rewrite Hop in Hrun.
  destruct (waitInitialList ctx s) as [[|]|]; [| |done].
  - injection Hrun as Hrun.
    destruct (range_int (maxAllocAttempts (alloc s))) as [|n]; simpl in Hrun.
    + unfold ret in Hrun. by simplify_eq.
    + unfold bind, on_localKeys, mainCache_insert, ret in Hrun. simpl in Hrun.
      rewrite (lk_use_hit _ _ _ E) in Hrun.
      destruct (decide (lk_val e0 ≠ NoID)) as [|Hz]; [by simplify_eq|].
      destruct Hz. by eapply Hok.
  - by simplify_eq.
Qed.
End Accounting.

(** ** A failing Allocate *)

Section Atomic.
Context {W K : Type} `{AllocatorKey K} `{Environment W K}.

Lemma allocateNewID_absent_unwinds ctx key lock (s : State W K) :
  localKeys (alloc s) !! GetKey key = None →
  idPool (alloc s) !! NoID ≠ Some Available →
  wp (allocateNewID ctx key (GetKey key) lock)
     (λ r s', is_Some (res_err r) → alloc s' = alloc s) s.
Proof.
  intros Habs Hpool.
  destruct (LeaseAvailableID (leasePick (world s)) (idPool (alloc s))) as [id p] eqn:E.
  destruct (decide (id = NoID)) as [->|Hid].
  - apply LeaseAvailableID_spec in E as [(Hav & _)|[Hav _]]; [|done].
    intros r s' Hrun. rewrite (allocateNewID_exhausted _ _ _ _ Hav) in Hrun.
    by simplify_eq.
  - apply allocateNewID_unwinds.
    + unfold lk_lookupKey. by rewrite Habs.
    + by rewrite E.
Qed.

Lemma lockedAllocate_absent_unwinds ctx key (s : State W K) :
  localKeys (alloc s) !! GetKey key = None →
  idPool (alloc s) !! NoID ≠ Some Available →
  wp (lockedAllocate ctx key) (λ r s', is_Some (res_err r) → alloc s' = alloc s) s.
Proof.
  intros Habs Hpool.
  unfold lockedAllocate, lockedAllocate_locked, resolveKnownKey, reuseGlobalKey,
    GetIfLocked, backend_Lock, backend_GetIfLocked, backend_UpdateKeyIfLocked,
    backend_AcquireReference, lock_Unlock.
  repeat (wp_step; cbn [fst snd alloc world trace localKeys idPool mainCache] in * ).
  all: simplify_eq/=; try done; try by intros [? [=]].
  all: try match goal with
           | n : lk_lookupKey _ _ ≠ _ |- _ =>
               exfalso; apply n; unfold lk_lookupKey; by rewrite Habs
           end.
  all: try (unfold lk_allocate, lk_release in *;
            match goal with
            | Hl : context [_ !! _] |- _ => rewrite Habs in Hl
            end;
            simplify_map_eq; intros _;
            unfold set_localKeys; simpl; apply Allocator_eta; try done;
            by apply delete_insert_id).
  rewrite set_localKeys_id.
  eapply wp_mono; [by apply allocateNewID_absent_unwinds|].
  intros r1 s1 Hs1. simpl in Hs1. repeat wp_step. done.
Qed.

Lemma allocateAttempts_unwinds n err ctx key (s : State W K) :
  lk_ok (localKeys (alloc s)) →
  idPool (alloc s) !! NoID ≠ Some Available →
  wp (allocateAttempts n err ctx key)
     (λ r s', is_Some (res_err r) → alloc s' = alloc s) s.
Proof.
  revert err s. induction n as [|n IH]; intros err s Hok Hpool; simpl.
  - by apply wp_ret.
  - destruct (localKeys (alloc s) !! GetKey key) as [e|] eqn:E.
    + wp_go; rewrite (lk_use_hit _ _ _ E) in *; simplify_eq.
      * by intros [? [=]].
      * match goal with n : ¬ _ ≠ _ |- _ => destruct n; by eapply Hok end.
    + wp_go; rewrite (lk_use_miss _ _ E) in *; simplify_eq.
      rewrite set_localKeys_id.
      replace (mkState (alloc s) (world s) (trace s)) with s by by destruct s.
      wp_call lockedAllocate_absent_unwinds as Hunw; [done|done|].
      unfold boff_Wait. wp_go; simpl.
      * intros _. by apply Hunw.
      * intros _. by apply Hunw.
      * assert (alloc s' = alloc s) as Heq by by apply Hunw.
        wp_call IH as Hih; simpl; rewrite ?Heq; try done.
        intros Hr. by rewrite Hih.
      * by intros [? [=]].
Qed.

(** X16: a failing [Allocate] changes nothing. Provided no local key is
    bound to the sentinel and the sentinel is not an available ID of the
    pool, a call that returns an error leaves the allocator (local keys,
    ID pool, main cache, settings) exactly as it found it, however many
    attempts it made. *)
Theorem failed_Allocate_changes_nothing ctx key (s : State W K) r s' :
  lk_ok (localKeys (alloc s)) →
  idPool (alloc s) !! NoID ≠ Some Available →
  Allocate ctx key s = Returns (r, s') →
  is_Some (res_err r) →
  alloc s' = alloc s.
Proof.
  intros Hok Hpool. unfold Allocate.
  destruct (waitInitialList ctx s) as [[|]|]; [|by intros [= <- <-]|done].
  destruct (operatorIDManagement (alloc s)).
  - destruct (GetWithRetry ctx key s) as [[id err] s1] eqn:E. intros [= <- <-] _.
    by destruct (wp_elim _ _ _ _ _ (getAttempts_spec _ _ _ _ _) E) as [-> _].
  - intros [= Hrun].
    exact (wp_elim _ _ _ _ _ (allocateAttempts_unwinds _ _ _ _ _ Hok Hpool) Hrun).
Qed.
End Atomic.

(** ** More runs in the scripted environment *)

Import Scenes.

Section ScriptedMore.
Local Open Scope string_scope.

(** The first allocation of "foo": one lock, released last. *)
Lemma lockedAllocate_lock_discipline_witness :
  let out := lockedAllocate (Ctx 0) "foo" fresh in
  ∃ mid, trace out.2 = (CallUnlock 7 :: mid ++ CallLock (GetKey "foo") :: trace fresh)%list ∧
         Forall underLock mid.
Proof.
  intros out.
  apply (lockedAllocate_lock_discipline (Ctx 0) "foo" fresh 7 None
           (mkWorld false true 0 [Ok 0; Ok 0; Ok 0; Ok 0]) out.1 out.2).
  - reflexivity.
  - vm_compute. reflexivity.
Defined.

Lemma lockedAllocate_create_discipline_witness :
  let out := lockedAllocate (Ctx 0) "foo" lostMasterKey in
  (count isAllocateID (trace out.2) + count isUpdateKey (trace out.2) ≤
     1 + (count isAllocateID (trace lostMasterKey) +
          count isUpdateKey (trace lostMasterKey)))%nat ∧
  (res_err out.1 = None →
     count isAllocateID (trace out.2) =
       ((if res_isNew out.1 then 1 else 0) + count isAllocateID (trace lostMasterKey))%nat ∧
     (res_isNew out.1 = true →
        CallAllocateIDIfLocked (res_id out.1) (GetKey "foo") ∈ trace out.2 ∧
        count isUpdateKey (trace out.2) = count isUpdateKey (trace lostMasterKey)) ∧
     (count isUpdateKey (trace out.2) ≠ count isUpdateKey (trace lostMasterKey) →
        res_isNew out.1 = false ∧
        CallUpdateKeyIfLocked (res_id out.1) (GetKey "foo") true ∈ trace out.2) ∧
     count isAcquireReference (trace out.2) =
       (1 + count isAcquireReference (trace lostMasterKey))%nat ∧
     ∃ lock k' t,
       trace out.2 = CallUnlock lock :: CallAcquireReference (res_id out.1) k' :: t).
Proof.
  intros out.
  apply (lockedAllocate_create_discipline (Ctx 0) "foo" lostMasterKey out.1 out.2).
  vm_compute. reflexivity.
Defined.

Lemma lockedAllocate_pool_effect_witness :
  let out := lockedAllocate (Ctx 0) "foo" fresh in
  ∃ u, idPool (alloc fresh) !! u = Some Available ∧
       u ≠ NoID ∧
       res_id out.1 = N.lor u (prefixMask (alloc fresh)) ∧
       N.land (res_id out.1) (prefixMask (alloc fresh)) = prefixMask (alloc fresh) ∧
       idPool (alloc out.2) = delete u (idPool (alloc fresh)).
Proof.
  intros out.
  apply (lockedAllocate_pool_effect (Ctx 0) "foo" fresh out.1 out.2).
  - vm_compute. reflexivity.
  - vm_compute. reflexivity.
Defined.

Lemma lockedAllocate_recreates_master_key_witness :
  let out := lockedAllocate (Ctx 0) "foo" lostMasterKey in
  let e := mkLocalKey "foo" 2%N 1 true in
  idPool (alloc out.2) = idPool (alloc lostMasterKey) ∧
  count isAllocateID (trace out.2) = count isAllocateID (trace lostMasterKey) ∧
  CallUpdateKeyIfLocked (lk_val e) (GetKey "foo") true ∈ trace out.2 ∧
  (res_err out.1 = None →
     out.1 = (lk_val e, false, false, None) ∧
     lk_refs (GetKey "foo") (localKeys (alloc out.2)) = lk_refcnt e) ∧
  (∀ cause, res_err out.1 = Some (ErrCreateSecondaryKey (GetKey "foo") cause) →
     lk_refs (GetKey "foo") (localKeys (alloc out.2)) = Nat.pred (lk_refcnt e)).
Proof.
  intros out e.
  apply (lockedAllocate_recreates_master_key (Ctx 0) "foo" lostMasterKey 7
           (mkWorld false true 0 [Ok 0; Ok 0; Ok 0])
           (mkWorld false true 0 [Ok 0; Ok 0]) e out.1 out.2).
  - reflexivity.
  - reflexivity.
  - reflexivity.
  - vm_compute. reflexivity.
  - vm_compute. discriminate.
  - vm_compute. reflexivity.
Defined.

Lemma Allocate_then_Get_witness :
  cache_get (GetKey "foo") (mainCache (alloc fooOnce)) = res_id (2%N, true, true, None) ∧
  Get (Ctx 1) "foo" fooOnce = ((res_id (2%N, true, true, None), None), fooOnce).
Proof.
  apply (Allocate_then_Get (Ctx 0) (Ctx 1) "foo" fresh (2%N, true, true, None) fooOnce).
  - reflexivity.
  - vm_compute. reflexivity.
  - split; [reflexivity|vm_compute; discriminate].
Defined.



(** The last reference to "foo" is released; the script has no reply
    left, so the backend's [Release] fails, and the call still returns a
    nil error. *)
Lemma Release_reaches_backend_on_last_use_witness :
  let s' := after (Release (Ctx 0) "foo" fooOnce) fooOnce in
  None = (None : option error) ∧
  ∃ e, localKeys (alloc fooOnce) !! GetKey "foo" = Some e ∧
       (lk_refcnt e ≤ 1)%nat ∧
       trace s' = CallRelease (lk_val e) (GetKey "foo") :: trace fooOnce ∧
       localKeys (alloc s') = delete (GetKey "foo") (localKeys (alloc fooOnce)).
Proof.
  intros s'.
  apply (Release_reaches_backend_on_last_use (Ctx 0) "foo" fooOnce true None s').
  vm_compute. reflexivity.
Defined.

Lemma fresh_allocator_waits_witness :
  let s := mkState (built [WithMin 1; WithMax 3]) (mkWorld true true 0 []) [] in
  Allocate (Ctx 0) "foo" s =
    (if ctxDone (mkWorld true true 0 []) (Ctx 0)
     then Returns (failed (ErrAllocCancelledInitial ContextErr), s)
     else Blocks) ∧
  WaitForInitialSync (Ctx 0) s =
    (if ctxDone (mkWorld true true 0 []) (Ctx 0)
     then Returns (Some (ErrSyncCancelled ContextErr)) else Blocks) ∧
  (operatorIDManagement (built [WithMin 1; WithMax 3]) = false →
   Release (Ctx 0) "foo" s =
     (if ctxDone (mkWorld true true 0 []) (Ctx 0)
      then Returns ((false, Some (ErrReleaseCancelled ContextErr)), s)
      else Blocks)).
Proof.
  apply (fresh_allocator_waits 0 [WithMin 1; WithMax 3] (built [WithMin 1; WithMax 3])
           (mkWorld true true 0 []) [] (Ctx 0) "foo").
  vm_compute. reflexivity.
Defined.

Lemma initial_sync_is_permanent_witness :
  let s' := mkState (alloc fooOnce) (mkWorld false false 0 []) [] in
  initialListDone (alloc fooOnce) = ChanClosed ∧
  waitInitialList (Ctx 1) s' ≠ None ∧
  (ctxDone (mkWorld false false 0 []) (Ctx 1) = false →
     waitInitialList (Ctx 1) s' = Some true ∧
     WaitForInitialSync (Ctx 1) s' = Returns None).
Proof.
  apply (initial_sync_is_permanent (Ctx 0) fresh (alloc fooOnce)
           (mkWorld false false 0 []) [] (Ctx 1)).
  - vm_compute. reflexivity.
  - eapply rtc_l; [|apply rtc_refl].
    apply (called_Allocate (alloc fresh) (world fresh) (trace fresh) (Ctx 0) "foo"
             (2%N, true, true, None) fooOnce).
    vm_compute. reflexivity.
Defined.

Lemma GetIncludeRemoteCaches_lookup_order_witness :
  alloc fresh = alloc fresh ∧
  (cache_get (GetKey "foo") (mainCache (alloc fresh)) ≠ NoID →
     9%N = cache_get (GetKey "foo") (mainCache (alloc fresh)) ∧
     None = (None : option error) ∧ fresh = fresh) ∧
  (cache_get (GetKey "foo") (mainCache (alloc fresh)) = NoID →
     if decide (Forall (λ rc, cache_get (GetKey "foo") rc = NoID) remotes)
     then trace fresh = CallGet (GetKey "foo") :: trace fresh ∧
          (9%N, None) = ((bGet (world fresh) (Ctx 0) "foo").1.1,
                         External <$> (bGet (world fresh) (Ctx 0) "foo").1.2)
     else 9%N ≠ NoID ∧ None = (None : option error) ∧ fresh = fresh ∧
          ∃ rc, rc ∈ remotes ∧ cache_get (GetKey "foo") rc = 9%N).
Proof.
  apply (GetIncludeRemoteCaches_lookup_order (Ctx 0) "foo" remotes fresh 9%N None fresh).
  vm_compute. reflexivity.
Defined.

Lemma Allocate_local_accounting_witness :
  (operatorIDManagement (alloc fresh) = false → allocated (2%N, true, true, None) →
     ∃ e, localKeys (alloc fooOnce) = <[GetKey "foo" := e]> (localKeys (alloc fresh)) ∧
          lk_val e = res_id (2%N, true, true, None) ∧
          lk_refcnt e = S (lk_refs (GetKey "foo") (localKeys (alloc fresh)))) ∧
  (operatorIDManagement (alloc fresh) = true ∨ ¬ allocated (2%N, true, true, None) →
     localKeys (alloc fooOnce) = localKeys (alloc fresh)).
Proof.
  apply (Allocate_local_accounting (Ctx 0) "foo" fresh (2%N, true, true, None) fooOnce).
  - intros k e Hl. vm_compute in Hl. discriminate.
  - vm_compute. reflexivity.
Defined.


Lemma Allocate_firstUse_witness :
  (res_firstUse (2%N, true, true, None) = true ↔
     localKeys (alloc fresh) !! GetKey "foo" = None) ∧
  (res_isNew (2%N, true, true, None) = true → res_firstUse (2%N, true, true, None) = true).
Proof.
  apply (Allocate_firstUse (Ctx 0) "foo" fresh (2%N, true, true, None) fooOnce).
  - intros k e Hl. vm_compute in Hl. discriminate.
  - reflexivity.
  - vm_compute. reflexivity.
  - split; [reflexivity|vm_compute; discriminate].
Defined.

Lemma failed_Allocate_changes_nothing_witness :
  alloc (after (Allocate (Ctx 0) "foo" refusing) refusing) = alloc refusing.
Proof.
  apply (failed_Allocate_changes_nothing (Ctx 0) "foo" refusing
           (failed (External "script exhausted"))
           (after (Allocate (Ctx 0) "foo" refusing) refusing)).
  - intros k e Hl. vm_compute in Hl. discriminate.
  - vm_compute. discriminate.
  - vm_compute. reflexivity.
  - by eexists.
Defined.
End ScriptedMore.
